(** * puc-projeto-micro: the guitar input pipeline

    A shallow embedding of [jogo/comunicacao/guitarra/listenerguitarra.py]
    and [jogo/comunicacao/guitarra/interfaceguitarra.py].

    - Python [float] is IEEE binary64, taken from the Standard Library's
      [SpecFloat] (round to nearest, ties to even).
    - Python [str] is a list of Unicode code points, [bytes] a list of
      [byte]; the Unicode character database is an interface
      ([UnicodeData]).
    - Exceptions are explicit results; callables are state transformers on
      the part of the program they can see, returning the exception they
      raise, if any. They leave the note they are called with as it is.
    - [Serial] ports live in a store and are referred to by location, so
      that two references to one port are one port.
    - The calls of the methods of a listener and the turns of its thread
      are taken one at a time, as the steps of a state machine; the threads
      that are alive are a set in the surroundings of the listener. *)

From Stdlib Require Import ZArith NArith Lia Bool List String.
From Stdlib Require Import Strings.Byte.
From Stdlib Require Import Floats.SpecFloat.
From stdpp Require Import base option list gmap.
Import ListNotations.

Set Default Proof Using "Type".

(** ** Python values *)

Module Py.

(** The exceptions that the modelled code can meet. *)
Inductive exn :=
| ValueError
| KeyError (k : Z)
| OverflowError
| RuntimeError (msg : string)
| SerialException
| AttributeError
| Outra (n : nat).

(** Result of an expression that may raise. *)
Inductive resultado (A : Type) :=
| Retorna (a : A)
| Levanta (e : exn).
Arguments Retorna {A} a.
Arguments Levanta {A} e.

(** A callable of one argument run for its effect on a state [W]: the state
    it leaves, and the exception it raised if it did not return. Its
    argument is left as it is. *)
Definition Callable (A W : Type) : Type := A -> W -> W * option exn.

(** [float]: binary64. *)
Definition float : Type := spec_float.
Definition prec : Z := 53.
Definition emax : Z := 1024.

Definition fsub (x y : float) : float := SFsub prec emax x y.
Definition fabs (x : float) : float := SFabs x.
Definition flt (x y : float) : bool := SFltb x y.
Definition fle (x y : float) : bool := SFleb x y.

(** The float nearest to [m * 2^e]; overflow gives an infinity. *)
Definition float_pow2 (m e : Z) : float := binary_normalize prec emax m e false.

(** The float nearest to the integer [z]. *)
Definition float_of_Z (z : Z) : float := float_pow2 z 0.

(** The integer [z] converted for mixed arithmetic ([x - z] with [x] a float):
    Python raises OverflowError when [z] is too large for a float. *)
Definition float_of_int (z : Z) : resultado float :=
  match float_of_Z z with
  | S754_infinity _ => Levanta OverflowError
  | f => Retorna f
  end.

(** Python compares a float with an int by their exact values. *)
Definition float_cmp_int (f : float) (z : Z) : option comparison :=
  match f with
  | S754_nan => None
  | S754_infinity s => Some (if s then Lt else Gt)
  | S754_zero _ => Some (0 ?= z)%Z
  | S754_finite s m e =>
      let v := cond_Zopp s (Zpos m) in
      Some (if (0 <=? e)%Z then (v * 2 ^ e ?= z)%Z else (v ?= z * 2 ^ (- e))%Z)
  end.

Definition float_lt_int (f : float) (z : Z) : bool :=
  match float_cmp_int f z with Some Lt => true | _ => false end.
Definition int_lt_float (z : Z) (f : float) : bool :=
  match float_cmp_int f z with Some Gt => true | _ => false end.
Definition float_eq_int (f : float) (z : Z) : bool :=
  match float_cmp_int f z with Some Eq => true | _ => false end.

(** A Python number: an [int] or a [float]. *)
Inductive numero :=
| PyInt (z : Z)
| PyFloat (f : float).

(** Any Python object, as far as the code tells them apart. *)
Inductive objeto :=
| Num (n : numero)
| Str (s : string)
| PyNone.

(** [isinstance(v, float)]: the float inside, if [v] is one. *)
Definition como_float (v : objeto) : option float :=
  match v with
  | Num (PyFloat f) => Some f
  | _ => None
  end.

(** [int(n)] truncates a float towards zero; NaN raises ValueError and an
    infinity OverflowError. *)
Definition int (n : numero) : resultado Z :=
  match n with
  | PyInt z => Retorna z
  | PyFloat S754_nan => Levanta ValueError
  | PyFloat (S754_infinity _) => Levanta OverflowError
  | PyFloat (S754_zero _) => Retorna 0%Z
  | PyFloat (S754_finite s m e) =>
      Retorna (cond_Zopp s (if (0 <=? e)%Z then Zpos m * 2 ^ e else Zpos m / 2 ^ (- e)))%Z
  end.

(** [n == k] for an int [k]. *)
Definition num_eq_int (n : numero) (k : Z) : bool :=
  match n with
  | PyInt z => (z =? k)%Z
  | PyFloat f => float_eq_int f k
  end.

(** [a == b] on numbers. *)
Definition num_eqb (a b : numero) : bool :=
  match a, b with
  | PyInt x, PyInt y => (x =? y)%Z
  | PyInt x, PyFloat g => float_eq_int g x
  | PyFloat f, PyInt y => float_eq_int f y
  | PyFloat f, PyFloat g => SFeqb f g
  end.

(** [x < r] and [x <= r] for a float [x] and a number [r]. *)
Definition float_lt_num (x : float) (r : numero) : bool :=
  match r with
  | PyFloat f => flt x f
  | PyInt z => float_lt_int x z
  end.

(** [x >= y] on floats, and against an int or a number. *)
Definition fge (x y : float) : bool :=
  match SFcompare x y with Some (Gt | Eq) => true | _ => false end.
Definition float_ge_int (f : float) (z : Z) : bool :=
  match float_cmp_int f z with Some (Gt | Eq) => true | _ => false end.
Definition float_ge_num (x : float) (r : numero) : bool :=
  match r with
  | PyFloat f => fge x f
  | PyInt z => float_ge_int x z
  end.

(** [0 <= r <= 0.5] for a number [r]. *)
Definition de_zero_a_meio (r : numero) : bool :=
  match r with
  | PyFloat f => float_ge_int f 0 && fle f (float_pow2 1 (-1))
  | PyInt z => (0 <=? z)%Z && (z <=? 0)%Z
  end.

(** The float that a number is in float arithmetic ([x - c]). *)
Definition valor_float (c : numero) : resultado float :=
  match c with
  | PyInt z => float_of_int z
  | PyFloat f => Retorna f
  end.

(** The number [c] is the integer [v]: [int(c)] is [v], [c == v], and [v]
    is [c] again as a float. *)
Definition codigo_inteiro (c : numero) (v : Z) : Prop :=
  int c = Retorna v /\ num_eq_int c v = true /\
  float_of_int v = valor_float c /\ exists fv, valor_float c = Retorna fv.

(** A [dict] keyed by numbers, in insertion order. *)
Definition dict (V : Type) : Type := list (numero * V).

(** [d[k]] for an int [k]: the value of the key equal to [k]. *)
Fixpoint dict_getitem {V} (d : dict V) (k : Z) : resultado V :=
  match d with
  | [] => Levanta (KeyError k)
  | (c, v) :: d' => if num_eq_int c k then Retorna v else dict_getitem d' k
  end.

(** [d[c] = v]: an equal key keeps its place and takes the new value. *)
Fixpoint dict_setitem {V} (d : dict V) (c : numero) (v : V) : dict V :=
  match d with
  | [] => [(c, v)]
  | (c', v') :: d' =>
      if num_eqb c' c then (c', v) :: d' else (c', v') :: dict_setitem d' c v
  end.

Definition dict_keys {V} (d : dict V) : list numero := map fst d.

End Py.
Import Py.

(** ** Text *)

(** A code point. *)
Definition codepoint : Type := N.

(** [str]. *)
Definition str : Type := list codepoint.

(** What the code uses of the Unicode character database. *)
Class UnicodeData := {
  (** Numeric_Type is Decimal, Digit or Numeric: [str.isnumeric], per character *)
  uc_numeric : codepoint -> bool;
  (** the digit value when Numeric_Type is Decimal: what [float] reads as a digit *)
  uc_decimal : codepoint -> option Z;
  (** white space, as [str.strip] sees it *)
  uc_space : codepoint -> bool
}.

Module Utf8.

Definition cont (b : N) : bool := (0x80 <=? b)%N && (b <=? 0xBF)%N.
Definition entre (lo b hi : N) : bool := (lo <=? b)%N && (b <=? hi)%N.
Definition low6 (b : N) : N := N.land b 0x3F.

(** [bytes.decode()] with its defaults: strict UTF-8. [None] stands for
    UnicodeDecodeError. *)
Fixpoint decode_N (bs : list N) : option str :=
  match bs with
  | [] => Some []
  | b0 :: r0 =>
      if (b0 <? 0x80)%N then cons b0 <$> decode_N r0
      else if entre 0xC2 b0 0xDF then
        match r0 with
        | b1 :: r1 =>
            if cont b1
            then cons (N.shiftl (N.land b0 0x1F) 6 + low6 b1)%N <$> decode_N r1
            else None
        | _ => None
        end
      else if entre 0xE0 b0 0xEF then
        match r0 with
        | b1 :: b2 :: r2 =>
            let lo := if (b0 =? 0xE0)%N then 0xA0%N else 0x80%N in
            let hi := if (b0 =? 0xED)%N then 0x9F%N else 0xBF%N in
            if entre lo b1 hi && cont b2
            then cons (N.shiftl (N.land b0 0x0F) 12 + N.shiftl (low6 b1) 6 + low6 b2)%N
                   <$> decode_N r2
            else None
        | _ => None
        end
      else if entre 0xF0 b0 0xF4 then
        match r0 with
        | b1 :: b2 :: b3 :: r3 =>
            let lo := if (b0 =? 0xF0)%N then 0x90%N else 0x80%N in
            let hi := if (b0 =? 0xF4)%N then 0x8F%N else 0xBF%N in
            if entre lo b1 hi && cont b2 && cont b3
            then cons (N.shiftl (N.land b0 0x07) 18 + N.shiftl (low6 b1) 12
                       + N.shiftl (low6 b2) 6 + low6 b3)%N <$> decode_N r3
            else None
        | _ => None
        end
      else None
  end.

Definition decode (bs : list byte) : option str := decode_N (map Byte.to_N bs).

End Utf8.

Section Texto.
Context `{UCD : UnicodeData}.

(** [s.split(sep)] for a one-character separator. *)
Fixpoint split (sep : codepoint) (s : str) : list str :=
  match s with
  | [] => [[]]
  | c :: r =>
      if (c =? sep)%N then [] :: split sep r
      else match split sep r with
           | f :: fs => (c :: f) :: fs
           | [] => [[c]]
           end
  end.

Fixpoint lstrip (s : str) : str :=
  match s with
  | c :: r => if uc_space c then lstrip r else s
  | [] => []
  end.

(** [s.strip()] *)
Definition strip (s : str) : str := rev (lstrip (rev (lstrip s))).

(** [s.isnumeric()]: at least one character, all of them numeric. *)
Definition isnumeric (s : str) : bool :=
  match s with
  | [] => false
  | _ => forallb uc_numeric s
  end.

(** The value of a run of decimal digits, most significant first. *)
Fixpoint digitos (acc : Z) (s : str) : option Z :=
  match s with
  | [] => Some acc
  | c :: r =>
      match uc_decimal c with
      | Some d => digitos (10 * acc + d)%Z r
      | None => None
      end
  end.

(** [float(s)] on the strings that reach it in [_loop], where
    [s.isnumeric()] has held: a run of numeric characters is a float literal
    exactly when each of them is a decimal digit, and it is then read in
    base ten and rounded to the nearest float (an infinity beyond the
    largest one); any other run raises ValueError. *)
Definition float_of_numeric (s : str) : resultado float :=
  match digitos 0 s with
  | Some v => Retorna (float_of_Z v)
  | None => Levanta ValueError
  end.

Definition str_eqb (a b : str) : bool := bool_decide (a = b).

(** [s.startswith(c)] for a one-character prefix. *)
Definition startswith (s : str) (c : codepoint) : bool :=
  match s with
  | x :: _ => (x =? c)%N
  | [] => false
  end.

End Texto.

(** ** Serial ports and threads *)

(** A reference to a [Serial] object or to a [Thread] object. *)
Definition loc : Type := nat.

(** A [serial.Serial] object, as far as the listener uses it. *)
Record Serial := {
  is_open : bool;
  name : string;
  (** whether the device can be opened: [open()] raises otherwise *)
  abre : bool;
  (** the lines the device has sent and [readline()] has not returned yet *)
  rx : list (list byte)
}.

(** What lies outside the two classes: the ports, the threads started and
    still running, the next thread to be created, the standard output. *)
Record Ambiente := {
  portas : gmap loc Serial;
  vivas : gset loc;
  prox_thread : loc;
  stdout : list string
}.

(** Before any thread is started. *)
Definition ambiente_inicial (ps : gmap loc Serial) : Ambiente :=
  {| portas := ps; vivas := ∅; prox_thread := 0; stdout := [] |}.

Definition porta_fechada : Serial :=
  {| is_open := false; name := EmptyString; abre := false; rx := [] |}.

Definition porta (a : Ambiente) (p : loc) : Serial := default porta_fechada (portas a !! p).

Definition com_portas (a : Ambiente) (ps : gmap loc Serial) : Ambiente :=
  {| portas := ps; vivas := vivas a; prox_thread := prox_thread a; stdout := stdout a |}.

Definition com_aberta (s : Serial) (b : bool) : Serial :=
  {| is_open := b; name := name s; abre := abre s; rx := rx s |}.

Definition com_rx (s : Serial) (ls : list (list byte)) : Serial :=
  {| is_open := is_open s; name := name s; abre := abre s; rx := ls |}.

Definition print (a : Ambiente) (msg : string) : Ambiente :=
  {| portas := portas a; vivas := vivas a; prox_thread := prox_thread a;
     stdout := stdout a ++ [msg] |}.

(** [port.open()] *)
Definition Serial_open (p : loc) (a : Ambiente) : resultado Ambiente :=
  if abre (porta a p)
  then Retorna (com_portas a (<[p := com_aberta (porta a p) true]> (portas a)))
  else Levanta SerialException.

(** [port.close()] *)
Definition Serial_close (p : loc) (a : Ambiente) : Ambiente :=
  com_portas a (<[p := com_aberta (porta a p) false]> (portas a)).

(** [Thread(target=...).start()]: a new thread, running. *)
Definition Thread_start (a : Ambiente) : loc * Ambiente :=
  (prox_thread a,
   {| portas := portas a; vivas := {[prox_thread a]} ∪ vivas a;
      prox_thread := S (prox_thread a); stdout := stdout a |}).

(** The thread [t] ends. *)
Definition Thread_fim (t : loc) (a : Ambiente) : Ambiente :=
  {| portas := portas a; vivas := vivas a ∖ {[t]};
     prox_thread := prox_thread a; stdout := stdout a |}.

(** [t.join()] returns once [t] has ended: at once when it already has, and
    not as long as [t] runs ([None]). *)
Definition Thread_join (t : loc) (a : Ambiente) : option Ambiente :=
  if bool_decide (t ∈ vivas a) then None else Some a.

(** How a call ends: it returns, it raises, or it waits and has not
    returned. *)
Inductive Fim :=
| Retornou
| Levantou (e : exn)
| Espera.

(** ** listenerguitarra.py *)

Record NotaGuitarra := {
  codigo : float;
  on : bool
}.

(** 0.5 *)
Definition meio : float := float_pow2 1 (-1).

Definition ponto_e_virgula : codepoint := 0x3B%N.
Definition um : str := [0x31%N].
Definition zero : str := [0x30%N].

Module ListenerGuitarra.
Section Classe.
Context `{UCD : UnicodeData} {W : Type}.

(** The [_lock] field is left out: every method takes and releases it within
    one call, and calls are taken one at a time. *)
Record t := {
  _input_port : option loc;
  _callbacks : list (Callable NotaGuitarra W);
  _range : numero;
  _running : bool;
  _thread : option loc;
  _nota_buffer : option NotaGuitarra
}.

(** [__init__] *)
Definition novo : t :=
  {| _input_port := None; _callbacks := []; _range := PyFloat meio;
     _running := false; _thread := None; _nota_buffer := None |}.

Definition com_range (l : t) (r : numero) : t :=
  {| _input_port := _input_port l; _callbacks := _callbacks l; _range := r;
     _running := _running l; _thread := _thread l; _nota_buffer := _nota_buffer l |}.

Definition com_input_port (l : t) (p : option loc) : t :=
  {| _input_port := p; _callbacks := _callbacks l; _range := _range l;
     _running := _running l; _thread := _thread l; _nota_buffer := _nota_buffer l |}.

Definition com_callbacks (l : t) (cs : list (Callable NotaGuitarra W)) : t :=
  {| _input_port := _input_port l; _callbacks := cs; _range := _range l;
     _running := _running l; _thread := _thread l; _nota_buffer := _nota_buffer l |}.

Definition com_thread (l : t) (r : bool) (th : option loc) : t :=
  {| _input_port := _input_port l; _callbacks := _callbacks l; _range := _range l;
     _running := r; _thread := th; _nota_buffer := _nota_buffer l |}.

Definition com_nota_buffer (l : t) (b : option NotaGuitarra) : t :=
  {| _input_port := _input_port l; _callbacks := _callbacks l; _range := _range l;
     _running := _running l; _thread := _thread l; _nota_buffer := b |}.

(** [range.setter] *)
Definition range_setter (l : t) (value : objeto) : t :=
  match como_float value with
  | Some v =>
      if flt meio v then com_range l (PyFloat meio)
      else if float_lt_int v 0 then com_range l (PyInt 0)
      else com_range l (PyFloat v)
  | None => l
  end.

(** [input_port.setter] *)
Definition input_port_setter (l : t) (port : loc) (a : Ambiente)
  : t * Ambiente * option exn :=
  match (if is_open (porta a port) then Retorna a else Serial_open port a) with
  | Levanta e => (l, a, Some e)
  | Retorna a1 =>
      let a2 := match _input_port l with
                | Some anterior => Serial_close anterior a1
                | None => a1
                end in
      (com_input_port l (Some port),
       print a2 ("porta " ++ name (porta a2 port) ++ " configurada"), None)
  end.

(** [callback.setter] *)
Definition callback_setter (l : t) (func : Callable NotaGuitarra W) : t :=
  com_callbacks l (_callbacks l ++ [func]).

(** [stop]: takes the lock and releases it. *)
Definition stop (l : t) (a : Ambiente) : t * Ambiente := (l, a).

(** What lines 100 to 118 of [_loop] make of a line: [continue], an
    exception, or the note [ret]. *)
Inductive Leitura :=
| Descartada
| Falha (e : exn)
| Amostra (ret : NotaGuitarra).

Definition decodifica (linha_bytes : list byte) : Leitura :=
  match Utf8.decode linha_bytes with
  | None => Descartada
  | Some linha =>
      match map strip (split ponto_e_virgula linha) with
      | [identificador_raw; pressionado_raw] =>
          if negb (isnumeric identificador_raw) then Descartada
          else match float_of_numeric identificador_raw with
               | Levanta e => Falha e
               | Retorna c =>
                   if negb (str_eqb pressionado_raw um || str_eqb pressionado_raw zero)
                   then Descartada
                   else Amostra {| codigo := c; on := startswith pressionado_raw 0x31%N |}
               end
      | _ => Descartada
      end
  end.

(** The three tests of the shape of a line, at lines 109, 112 and 116: two
    fields, the first numeric, the second ['1'] or ['0']. *)
Definition forma_valida (linha_bytes : list byte) : bool :=
  match Utf8.decode linha_bytes with
  | None => false
  | Some linha =>
      match map strip (split ponto_e_virgula linha) with
      | [identificador_raw; pressionado_raw] =>
          isnumeric identificador_raw
          && (str_eqb pressionado_raw um || str_eqb pressionado_raw zero)
      | _ => false
      end
  end.

(** [for c in self._callbacks: c(ret)], with the calls made: the place of
    the callback in the list and its argument. The first callback to raise
    ends the loop. *)
Fixpoint despacha (cs : list (Callable NotaGuitarra W)) (i : nat)
  (ret : NotaGuitarra) (w : W) : W * list (nat * NotaGuitarra) * option exn :=
  match cs with
  | [] => (w, [], None)
  | c :: cs' =>
      match c ret w with
      | (w1, Some e) => (w1, [(i, ret)], Some e)
      | (w1, None) =>
          let '(w2, ch, e) := despacha cs' (S i) ret w1 in
          (w2, (i, ret) :: ch, e)
      end
  end.

(** The world after the callbacks [cs] have each been called on [ret]. *)
Definition mundo_apos (cs : list (Callable NotaGuitarra W)) (ret : NotaGuitarra)
  (w : W) : W :=
  fold_left (fun w' c => fst (c ret w')) cs w.

(** The test of line 123. *)
Definition inverteu (l : t) (b ret : NotaGuitarra) : bool :=
  float_lt_num (fabs (fsub (codigo b) (codigo ret))) (_range l)
  && negb (eqb (on b) (on ret)).

(** One turn of the body of the [while] of [_loop], on the line read. *)
Record Iteracao := {
  it_listener : t;
  it_mundo : W;
  it_chamadas : list (nat * NotaGuitarra);
  it_erro : option exn
}.

Definition _loop_corpo (l : t) (linha_bytes : list byte) (w : W) : Iteracao :=
  match decodifica linha_bytes with
  | Descartada =>
      {| it_listener := l; it_mundo := w; it_chamadas := []; it_erro := None |}
  | Falha e =>
      {| it_listener := l; it_mundo := w; it_chamadas := []; it_erro := Some e |}
  | Amostra ret =>
      let '(w1, ch, e) :=
        match _nota_buffer l with
        | Some b => if inverteu l b ret then despacha (_callbacks l) 0 ret w
                    else (w, [], None)
        | None => (w, [], None)
        end in
      match e with
      | Some _ =>
          {| it_listener := l; it_mundo := w1; it_chamadas := ch; it_erro := e |}
      | None =>
          {| it_listener := com_nota_buffer l (Some ret); it_mundo := w1;
             it_chamadas := ch; it_erro := None |}
      end
  end.

(** [start] *)
Definition start (l : t) (a : Ambiente) : t * Ambiente :=
  if negb (_running l) && bool_decide (_thread l = None) then
    let '(th, a1) := Thread_start a in
    (com_thread l true (Some th), print a1 "Iniciando thread")
  else (l, a).

(** [close]. With [_lock] taken and [_running] set to False, [join] waits
    for the thread to end. When the thread has already ended the call
    returns at once, with [_thread] set to None. Otherwise the call has not
    returned ([Espera]): [_running] is False, [_thread] is still set and
    [_lock] is held, until the thread ends. The thread may never end: its
    [readline()] has no timeout, and a dispatch needs the [_lock] that
    [close] holds. *)
Definition close (l : t) (a : Ambiente) : t * Ambiente * Fim :=
  if _running l then
    match _thread l with
    | Some th =>
        match Thread_join th a with
        | Some a1 => (com_thread l false None, a1, Retornou)
        | None => (com_thread l false (Some th), a, Espera)
        end
    | None => (com_thread l false None, a, Levantou AttributeError)
    end
  else (l, a, Retornou).

(** A listener in its surroundings: the ports and threads, and the state
    [W] that its callbacks work on. *)
Record Estado := {
  ouvinte : t;
  amb : Ambiente;
  mundo : W
}.

Definition fim_da_thread (th : loc) (s : Estado) : Estado :=
  {| ouvinte := ouvinte s; amb := Thread_fim th (amb s); mundo := mundo s |}.

(** One turn of the [while] of [_loop] on the thread [th]: the test, the
    [readline()], the body. The thread ends when the test fails or an
    exception leaves [_loop]; on a port with no line to give, [readline()]
    waits and nothing changes. *)
Definition _loop (th : loc) (s : Estado) : Estado * list (nat * NotaGuitarra) :=
  let l := ouvinte s in
  let a := amb s in
  if negb (bool_decide (th ∈ vivas a)) then (s, [])
  else if negb (_running l) then (fim_da_thread th s, [])
  else
    match _input_port l with
    | None => (fim_da_thread th s, [])
    | Some p =>
        if negb (is_open (porta a p)) then (fim_da_thread th s, [])
        else
          match rx (porta a p) with
          | [] => (s, [])
          | linha_bytes :: resto =>
              let a1 := com_portas a (<[p := com_rx (porta a p) resto]> (portas a)) in
              let it := _loop_corpo l linha_bytes (mundo s) in
              let s1 := {| ouvinte := it_listener it; amb := a1; mundo := it_mundo it |} in
              (match it_erro it with
               | Some _ => fim_da_thread th s1
               | None => s1
               end, it_chamadas it)
          end
    end.

(** The return of a [close] that waits in [join], once its thread has
    ended: line 145 sets [_thread] to None. [_running] is False with a thread
    in [_thread] only while a [close] waits. *)
Definition join_retorna (s : Estado) : Estado :=
  match _thread (ouvinte s) with
  | Some th =>
      if negb (_running (ouvinte s)) && negb (bool_decide (th ∈ vivas (amb s)))
      then {| ouvinte := com_thread (ouvinte s) false None; amb := amb s; mundo := mundo s |}
      else s
  | None => s
  end.

(** What can happen to a listener: a call of one of its methods by its
    owner, a line sent by the device, a turn of a thread. A [close] that
    waits returns with the turn that ends its thread. *)
Inductive Acao :=
| ChamaStart
| ChamaStop
| ChamaClose
| AtribuiCallback (func : Callable NotaGuitarra W)
| AtribuiRange (value : objeto)
| AtribuiInputPort (port : loc)
| ChegaLinha (port : loc) (linha_bytes : list byte)
| Turno (th : loc).

Definition executa (s : Estado) (ac : Acao) : Estado :=
  match ac with
  | ChamaStart =>
      let '(l, a) := start (ouvinte s) (amb s) in
      {| ouvinte := l; amb := a; mundo := mundo s |}
  | ChamaStop =>
      let '(l, a) := stop (ouvinte s) (amb s) in
      {| ouvinte := l; amb := a; mundo := mundo s |}
  | ChamaClose =>
      let '(l, a, _) := close (ouvinte s) (amb s) in
      {| ouvinte := l; amb := a; mundo := mundo s |}
  | AtribuiCallback func =>
      {| ouvinte := callback_setter (ouvinte s) func; amb := amb s; mundo := mundo s |}
  | AtribuiRange value =>
      {| ouvinte := range_setter (ouvinte s) value; amb := amb s; mundo := mundo s |}
  | AtribuiInputPort port =>
      let '(l, a, _) := input_port_setter (ouvinte s) port (amb s) in
      {| ouvinte := l; amb := a; mundo := mundo s |}
  | ChegaLinha port linha_bytes =>
      let sp := porta (amb s) port in
      {| ouvinte := ouvinte s;
         amb := com_portas (amb s) (<[port := com_rx sp (rx sp ++ [linha_bytes])]> (portas (amb s)));
         mundo := mundo s |}
  | Turno th => join_retorna (fst (_loop th s))
  end.


Definition executa_todas (s : Estado) (acs : list Acao) : Estado :=
  fold_left executa acs s.

(** Every live thread of the listener is the one in its [_thread] field. *)
Definition uma_thread (s : Estado) : Prop :=
  forall th, th ∈ vivas (amb s) -> _thread (ouvinte s) = Some th.


End Classe.
Arguments t : clear implicits.
Arguments Estado : clear implicits.
Arguments Acao : clear implicits.
End ListenerGuitarra.

(** ** interfaceguitarra.py *)

(** Modelled from the spec: the class [NotaProcessada] of
    [jogo/comunicacao/nota_processada.py], which is not among the sources;
    the spec's ResolvedNote, a name and an on/off flag. *)
Module NotaProcessada.
Record t := {
  nome : string;
  on : bool
}.
End NotaProcessada.

Module InterfaceGuitarra.
Section Classe.
Context `{UCD : UnicodeData} {U : Type}.

(** The fields of the interface other than [_listener]; [_dicionario] is
    the field of [InterfaceBase]. *)
Record t := {
  _porta : loc;
  _valores_dicionario : list Z;
  _dicionario : dict string;
  _range : float;
  _callback_usuario : Callable NotaProcessada.t U
}.

(** What the callback registered by [start] works on: the interface it
    closes over, the state of the user's callback, and the notes handed to
    the user's callback so far. *)
Record Mundo := {
  self : t;
  usuario : U;
  entregues : list NotaProcessada.t
}.

(** An interface with its [_listener]. *)
Definition Estado : Type := ListenerGuitarra.Estado Mundo.

(** [__init__]: the fields other than [_listener], which starts as
    [ListenerGuitarra.novo]. [_dicionario] is left by [InterfaceBase.__init__],
    which is not among the sources: it is taken to start empty. *)
Definition __init__ (serial_port : loc) (callback : Callable NotaProcessada.t U)
  (rangen : objeto) : resultado t :=
  match como_float rangen with
  | Some r =>
      if int_lt_float 0 r && fle r meio
      then Retorna {| _porta := serial_port; _valores_dicionario := [];
                      _dicionario := []; _range := r; _callback_usuario := callback |}
      else Levanta (RuntimeError "Valor invalido para rangen")
  | None => Levanta (RuntimeError "Valor invalido para rangen")
  end.

(** Modelled from the spec: [InterfaceBase.atribui_notas] of
    [jogo/comunicacao/base.py], which is not among the sources. It binds
    each note name to its code; [_callback] reads [_dicionario] by code, so
    the binding is kept as code to name. *)
Definition base_atribui_notas (d : dict string) (kwargs : list (string * numero))
  : dict string :=
  fold_left (fun d (kv : string * numero) => dict_setitem d (snd kv) (fst kv)) kwargs d.

(** The [for] of [atribui_notas], on keys that are numbers: the codes of
    the bindings are taken to be ints or floats, as those of the one call in
    the sources ([Jogo._iniciar_guitarra]); codes of other types (a str, on
    which [int] may raise ValueError too, or None, on which it raises
    TypeError) are not modelled. On a number [int] raises ValueError for NaN
    only, which [str] writes ['nan']: this gives the message of the
    RuntimeError of line 37. *)
Fixpoint atribui_notas_for (keys : list numero) (valores : list Z)
  : list Z * option exn :=
  match keys with
  | [] => (valores, None)
  | key :: keys' =>
      match int key with
      | Retorna v => atribui_notas_for keys' (valores ++ [v])
      | Levanta ValueError => (valores, Some (RuntimeError "Valor inválido: nan"))
      | Levanta e => (valores, Some e)
      end
  end.

Definition atribui_notas (i : t) (kwargs : list (string * numero)) : t * option exn :=
  let d := base_atribui_notas (_dicionario i) kwargs in
  let '(valores, e) := atribui_notas_for (dict_keys d) (_valores_dicionario i) in
  ({| _porta := _porta i; _valores_dicionario := valores; _dicionario := d;
      _range := _range i; _callback_usuario := _callback_usuario i |}, e).

(** The [for] of [_callback]. *)
Fixpoint _callback_for (valores : list Z) (i : t) (nota : NotaGuitarra) (u : U)
  (log : list NotaProcessada.t) : U * list NotaProcessada.t * option exn :=
  match valores with
  | [] => (u, log, None)
  | valor :: valores' =>
      match float_of_int valor with
      | Levanta e => (u, log, Some e)
      | Retorna v =>
          if fle (fabs (fsub (codigo nota) v)) (_range i) then
            match dict_getitem (_dicionario i) valor with
            | Levanta e => (u, log, Some e)
            | Retorna nm =>
                let np := {| NotaProcessada.nome := nm; NotaProcessada.on := on nota |} in
                match _callback_usuario i np u with
                | (u1, Some e) => (u1, log ++ [np], Some e)
                | (u1, None) => _callback_for valores' i nota u1 (log ++ [np])
                end
            end
          else _callback_for valores' i nota u log
      end
  end.

Definition _callback : Callable NotaGuitarra Mundo :=
  fun nota m =>
    let '(u, log, e) :=
      _callback_for (_valores_dicionario (self m)) (self m) nota (usuario m) (entregues m) in
    ({| self := self m; usuario := u; entregues := log |}, e).

(** [abs(nota.codigo - c) <= tol] for a bound code [c]. *)
Definition perto (tol : float) (nota : NotaGuitarra) (c : numero) : bool :=
  match valor_float c with
  | Retorna fc => fle (fabs (fsub (codigo nota) fc)) tol
  | Levanta _ => false
  end.

(** The notes of the bindings [kwargs] whose code is within [_range] of
    [nota], in the order of the bindings. *)
Definition resolvidas (i : t) (nota : NotaGuitarra) (kwargs : list (string * numero))
  : list NotaProcessada.t :=
  map (fun kv => {| NotaProcessada.nome := fst kv; NotaProcessada.on := on nota |})
    (List.filter (fun kv => perto (_range i) nota (snd kv)) kwargs).


(** The state of the user's callback after it has been handed [nps]. *)
Definition usuario_apos (i : t) (nps : list NotaProcessada.t) (u : U) : U :=
  fold_left (fun u' np => fst (_callback_usuario i np u')) nps u.

(** [start] *)
Definition start (s : Estado) : Estado * option exn :=
  let l1 := ListenerGuitarra.callback_setter (ListenerGuitarra.ouvinte s)
              (fun x => _callback x) in
  match ListenerGuitarra.input_port_setter l1
          (_porta (self (ListenerGuitarra.mundo s))) (ListenerGuitarra.amb s) with
  | (l2, a2, Some e) =>
      ({| ListenerGuitarra.ouvinte := l2; ListenerGuitarra.amb := a2;
          ListenerGuitarra.mundo := ListenerGuitarra.mundo s |}, Some e)
  | (l2, a2, None) =>
      let '(l3, a3) := ListenerGuitarra.start l2 a2 in
      ({| ListenerGuitarra.ouvinte := l3; ListenerGuitarra.amb := a3;
          ListenerGuitarra.mundo := ListenerGuitarra.mundo s |}, None)
  end.

(** [stop] *)
Definition stop (s : Estado) : Estado :=
  let '(l, a) := ListenerGuitarra.stop (ListenerGuitarra.ouvinte s) (ListenerGuitarra.amb s) in
  {| ListenerGuitarra.ouvinte := l; ListenerGuitarra.amb := a;
     ListenerGuitarra.mundo := ListenerGuitarra.mundo s |}.

(** [n] calls of [start], whatever each of them raises. *)
Definition start_vezes (n : nat) (s : Estado) : Estado :=
  Nat.iter n (fun s' => fst (start s')) s.

(** A new interface around the port [serial_port], with nothing running. *)
Definition nova (i : t) (a : Ambiente) (u : U) : Estado :=
  {| ListenerGuitarra.ouvinte := ListenerGuitarra.novo; ListenerGuitarra.amb := a;
     ListenerGuitarra.mundo := {| self := i; usuario := u; entregues := [] |} |}.

End Classe.
Arguments t : clear implicits.
Arguments Mundo : clear implicits.
Arguments Estado : clear implicits.
End InterfaceGuitarra.

(** ** The character database on U+0000 to U+00FF

    The concrete lines below use no character beyond U+00FF; on those the
    three tables are the ones of the Unicode character database. *)
Module Latin1.

Definition numeric (c : codepoint) : bool :=
  Utf8.entre 0x30 c 0x39
  || (c =? 0xB2)%N || (c =? 0xB3)%N || (c =? 0xB9)%N
  || Utf8.entre 0xBC c 0xBE.

Definition decimal (c : codepoint) : option Z :=
  if Utf8.entre 0x30 c 0x39 then Some (Z.of_N c - 0x30)%Z else None.

Definition space (c : codepoint) : bool :=
  Utf8.entre 0x09 c 0x0D || Utf8.entre 0x1C c 0x20 || (c =? 0x85)%N || (c =? 0xA0)%N.

Definition ucd : UnicodeData :=
  {| uc_numeric := numeric; uc_decimal := decimal; uc_space := space |}.

End Latin1.

(** ** Concrete inputs *)

Module Exemplos.

(** The text [s] as the device sends it: its bytes and a line feed. *)
Definition linha (s : string) : list byte := list_byte_of_string s ++ [x0a].

(** The line of the two characters U+00B2 (superscript two) and [;],
    then [1]: in UTF-8, C2 B2 3B 31 0A. *)
Definition linha_ao_quadrado : list byte := [xc2; xb2; x3b; x31; x0a].

Definition nota (c : Z) (b : bool) : NotaGuitarra :=
  {| codigo := float_of_Z c; on := b |}.

(** 0.25, 1.5 and NaN *)
Definition um_quarto : float := float_pow2 1 (-2).
Definition um_e_meio : float := float_pow2 3 (-1).
Definition nan : float := S754_nan.

(** Callbacks on a world that keeps what they were called with: one that
    returns and one that raises. *)
Definition anota (quem : nat) : Callable NotaGuitarra (list (nat * NotaGuitarra)) :=
  fun x w => (w ++ [(quem, x)], None).

(** A user's callback that returns. *)
Definition aceita : Callable NotaProcessada.t unit := fun _ u => (u, None).

(** The bindings of [Jogo._iniciar_guitarra]. *)
Definition cinco_notas : list (string * numero) :=
  [("nota1", PyFloat (float_of_Z 1)); ("nota2", PyFloat (float_of_Z 2));
   ("nota3", PyFloat (float_of_Z 3)); ("nota4", PyFloat (float_of_Z 4));
   ("nota5", PyFloat (float_of_Z 5))]%string.

Definition nota_e_meia : list (string * numero) :=
  [("nota1", PyFloat um_e_meio)]%string.

Definition nota_e_nota_e_meia : list (string * numero) :=
  [("nota1", PyFloat (float_of_Z 1)); ("nota2", PyFloat um_e_meio)]%string.

(** One port, open, as [Serial(porta)] leaves it. *)
Definition uma_porta : gmap loc Serial :=
  {[ 0 := {| is_open := true; name := "COM3"; abre := true; rx := [] |} ]}.

(** The interface made by [InterfaceGuitarra(port 0, aceita, 0.5)] and
    [atribui_notas] of the bindings, and what the two calls raised. *)
Definition interface (kwargs : list (string * numero))
  : option (InterfaceGuitarra.t unit) * option exn :=
  match InterfaceGuitarra.__init__ 0 aceita (Num (PyFloat meio)) with
  | Retorna i0 =>
      let '(i1, e) := InterfaceGuitarra.atribui_notas i0 kwargs in (Some i1, e)
  | Levanta e => (None, Some e)
  end.

Definition mundo_de (i : InterfaceGuitarra.t unit) : InterfaceGuitarra.Mundo unit :=
  {| InterfaceGuitarra.self := i; InterfaceGuitarra.usuario := tt;
     InterfaceGuitarra.entregues := [] |}.

(** What [InterfaceGuitarra(port 0, aceita, 0.5)] makes. *)
Definition interface_nova : InterfaceGuitarra.t unit :=
  {| InterfaceGuitarra._porta := 0; InterfaceGuitarra._valores_dicionario := [];
     InterfaceGuitarra._dicionario := []; InterfaceGuitarra._range := meio;
     InterfaceGuitarra._callback_usuario := aceita |}.

(** [interface_nova] after [atribui_notas] of the bindings. *)
Definition configurada (kwargs : list (string * numero)) : InterfaceGuitarra.t unit :=
  fst (InterfaceGuitarra.atribui_notas interface_nova kwargs).

(** What the callbacks of the listener examples work on: the record of
    their calls. *)
Definition Registro : Type := list (nat * NotaGuitarra).

(** A new listener with the callbacks [cs] registered in this order. *)
Definition registrados {W} (cs : list (Callable NotaGuitarra W)) : ListenerGuitarra.t W :=
  fold_left ListenerGuitarra.callback_setter cs ListenerGuitarra.novo.

(** The listener [l] after its loop has read the line. *)
Definition depois_de {W} (l : ListenerGuitarra.t W) (linha_bytes : list byte) (w : W)
  : ListenerGuitarra.t W :=
  ListenerGuitarra.it_listener
    (ListenerGuitarra._loop_corpo (UCD := Latin1.ucd) l linha_bytes w).

(** A new listener on the open port 0. *)
Definition sistema : ListenerGuitarra.Estado Registro :=
  {| ListenerGuitarra.ouvinte := ListenerGuitarra.novo;
     ListenerGuitarra.amb := ambiente_inicial uma_porta;
     ListenerGuitarra.mundo := [] |}.

End Exemplos.

(** ** The loop on the lines read, one after the other *)

Section Leituras.
Context `{UCD : UnicodeData} {W : Type}.

(** The turns of the [while] of [_loop] on the lines that [readline()]
    returns one after the other, as long as the test of the [while] holds:
    the listener and the world they leave, the calls made in order, and the
    exception that ended them, if any. *)
Fixpoint _loop_leituras (l : ListenerGuitarra.t W) (linhas : list (list byte)) (w : W)
  : ListenerGuitarra.Iteracao (W := W) :=
  match linhas with
  | [] =>
      {| ListenerGuitarra.it_listener := l; ListenerGuitarra.it_mundo := w;
         ListenerGuitarra.it_chamadas := []; ListenerGuitarra.it_erro := None |}
  | linha_bytes :: resto =>
      let it := ListenerGuitarra._loop_corpo l linha_bytes w in
      match ListenerGuitarra.it_erro it with
      | Some _ => it
      | None =>
          let it' := _loop_leituras (ListenerGuitarra.it_listener it) resto
                       (ListenerGuitarra.it_mundo it) in
          {| ListenerGuitarra.it_listener := ListenerGuitarra.it_listener it';
             ListenerGuitarra.it_mundo := ListenerGuitarra.it_mundo it';
             ListenerGuitarra.it_chamadas :=
               ListenerGuitarra.it_chamadas it ++ ListenerGuitarra.it_chamadas it';
             ListenerGuitarra.it_erro := ListenerGuitarra.it_erro it' |}
      end
  end.

(** [n] turns of the thread [th], one after the other, with the calls made. *)
Fixpoint turnos (n : nat) (th : loc) (s : ListenerGuitarra.Estado W)
  : ListenerGuitarra.Estado W * list (nat * NotaGuitarra) :=
  match n with
  | 0 => (s, [])
  | S n' =>
      let '(s1, ch1) := ListenerGuitarra._loop th s in
      let '(s2, ch2) := turnos n' th s1 in
      (s2, ch1 ++ ch2)
  end.

(** The note of the last of the lines that gives one, [b] when none does. *)
Fixpoint ultima_amostra (b : option NotaGuitarra) (linhas : list (list byte))
  : option NotaGuitarra :=
  match linhas with
  | [] => b
  | linha_bytes :: resto =>
      match ListenerGuitarra.decodifica linha_bytes with
      | ListenerGuitarra.Amostra ret => ultima_amostra (Some ret) resto
      | _ => ultima_amostra b resto
      end
  end.

(** The lines that the body of the loop leaves with [continue]. *)
Definition descartada (linha_bytes : list byte) : bool :=
  match ListenerGuitarra.decodifica linha_bytes with
  | ListenerGuitarra.Descartada => true
  | _ => false
  end.

(** The notes that the lines give, in order. *)
Fixpoint amostras (linhas : list (list byte)) : list NotaGuitarra :=
  match linhas with
  | [] => []
  | linha_bytes :: resto =>
      match ListenerGuitarra.decodifica linha_bytes with
      | ListenerGuitarra.Amostra ret => ret :: amostras resto
      | _ => amostras resto
      end
  end.

End Leituras.

(** A float that is a number: neither an infinity nor NaN. *)
Definition finito (x : float) : bool :=
  match x with
  | S754_zero _ | S754_finite _ _ _ => true
  | _ => false
  end.

(** ** The format of the device *)

(** An ASCII decimal digit, and an ASCII white space character. *)
Definition digito_ascii (b : byte) : bool := Utf8.entre 0x30 (Byte.to_N b) 0x39.
Definition branco_ascii (b : byte) : bool :=
  Utf8.entre 0x09 (Byte.to_N b) 0x0D || Utf8.entre 0x1C (Byte.to_N b) 0x20.

(** The integer that a run of ASCII digits writes in base ten. *)
Definition valor_decimal (ds : list byte) : Z :=
  fold_left (fun acc b => (10 * acc + (Z.of_N (Byte.to_N b) - 0x30))%Z) ds 0%Z.

(** A line in the format of the device: the digits of the code, [;] and the
    flag, each field with white space around it. *)
Definition linha_do_dispositivo (e1 ds e2 e3 : list byte) (b : bool) (e4 : list byte)
  : list byte :=
  e1 ++ ds ++ e2 ++ [x3b] ++ e3 ++ [if b then x31 else x30] ++ e4.

(** The number of [;] of a line. *)
Definition separadores (linha : str) : nat :=
  length (List.filter (fun c => (c =? ponto_e_virgula)%N) linha).

(** ** core.py *)

Module Jogo.
Section Classe.
Context `{UCD : UnicodeData} {U : Type}.

(** [_iniciar_guitarra], lines 89 to 104. [calibrar_guitarra] is not among
    the sources: the port and the range that it returns are given here.
    [Serial(porta)] makes the port object and opens it, or raises
    SerialException. The callback handed to the interface is
    [_callback_interface], which works on the state [U] of the game. The
    result is the interface that [self.interface] is left with. *)
Definition _iniciar_guitarra (porta_serial : loc) (range_considerado : objeto)
  (_callback_interface : Callable NotaProcessada.t U) (a : Ambiente) (u : U)
  : resultado (InterfaceGuitarra.Estado U) :=
  match Serial_open porta_serial a with
  | Levanta e => Levanta e
  | Retorna a1 =>
      match InterfaceGuitarra.__init__ porta_serial _callback_interface range_considerado with
      | Levanta e => Levanta e
      | Retorna i0 =>
          match InterfaceGuitarra.atribui_notas i0 Exemplos.cinco_notas with
          | (_, Some e) => Levanta e
          | (i1, None) =>
              match InterfaceGuitarra.start (InterfaceGuitarra.nova i1 a1 u) with
              | (_, Some e) => Levanta e
              | (s, None) => Retorna s
              end
          end
      end
  end.

End Classe.
End Jogo.

(** ** More concrete inputs *)

Module Cenarios.
Import Exemplos.

(** The open port 0 and a second port, closed, that can be opened. *)
Definition duas_portas : gmap loc Serial :=
  {[ 0 := {| is_open := true; name := "COM3"; abre := true; rx := [] |};
     1 := {| is_open := false; name := "COM4"; abre := true; rx := [] |} ]}.

(** The port 0 before [Serial(porta)] opens it. *)
Definition porta_por_abrir : gmap loc Serial :=
  {[ 0 := {| is_open := false; name := "COM3"; abre := true; rx := [] |} ]}.

(** A listener with one callback, on the port 0 of [duas_portas]. *)
Definition na_porta_0 : ListenerGuitarra.Estado Registro :=
  ListenerGuitarra.executa_todas (UCD := Latin1.ucd)
    {| ListenerGuitarra.ouvinte := registrados [anota 0];
       ListenerGuitarra.amb := ambiente_inicial duas_portas;
       ListenerGuitarra.mundo := [] |}
    [ListenerGuitarra.AtribuiInputPort 0].

(** The listener of [na_porta_0] started, with three lines waiting in its
    port: a release, noise, a press. *)
Definition em_escuta : ListenerGuitarra.Estado Registro :=
  ListenerGuitarra.executa_todas (UCD := Latin1.ucd) na_porta_0
    [ListenerGuitarra.ChamaStart;
     ListenerGuitarra.ChegaLinha 0 (linha "1;0");
     ListenerGuitarra.ChegaLinha 0 (linha "ruido");
     ListenerGuitarra.ChegaLinha 0 (linha "1;1")].

(** Bindings with a code that is NaN between two codes that are numbers. *)
Definition notas_com_nan : list (string * numero) :=
  [("nota1", PyFloat (float_of_Z 1)); ("nota2", PyFloat nan);
   ("nota3", PyFloat (float_of_Z 3))]%string.

(** What [InterfaceGuitarra(port 0, aceita, 0.25)] makes. *)
Definition interface_um_quarto : InterfaceGuitarra.t unit :=
  {| InterfaceGuitarra._porta := 0; InterfaceGuitarra._valores_dicionario := [];
     InterfaceGuitarra._dicionario := []; InterfaceGuitarra._range := um_quarto;
     InterfaceGuitarra._callback_usuario := aceita |}.

(** An interface with the five bindings after one [start]. *)
Definition iniciada : InterfaceGuitarra.Estado unit :=
  InterfaceGuitarra.start_vezes 1
    (InterfaceGuitarra.nova (configurada cinco_notas) (ambiente_inicial uma_porta) tt).





(** A listener started with no port, after a turn of its thread. *)
Definition sem_porta : ListenerGuitarra.Estado Registro :=
  ListenerGuitarra.executa_todas (UCD := Latin1.ucd) sistema
    [ListenerGuitarra.ChamaStart; ListenerGuitarra.Turno 0].

End Cenarios.

(** * Properties *)

(** ** The listener *)

Section Listener.
Context `{UCD : UnicodeData} {W : Type}.
Import ListenerGuitarra.

Implicit Types (l : ListenerGuitarra.t W) (w : W) (a : Ambiente).
Implicit Types (prev cur ret : NotaGuitarra) (linha_bytes : list byte).

Lemma despacha_spec cs i ret w :
  exists k,
    k <= length cs /\
    fst (fst (despacha cs i ret w)) = mundo_apos (take k cs) ret w /\
    snd (fst (despacha cs i ret w)) = map (fun j => (j, ret)) (seq i k) /\
    (snd (despacha cs i ret w) = None -> k = length cs) /\
    (forall e, snd (despacha cs i ret w) = Some e ->
       0 < k /\ exists c, cs !! (k - 1) = Some c /\
                snd (c ret (mundo_apos (take (k - 1) cs) ret w)) = Some e).
Proof.
  revert i w. induction cs as [|c cs IH]; intros i w.
  - exists 0. simpl. split; [lia|]. do 3 (split; [done|]). by intros e.
  - simpl. destruct (c ret w) as [w1 [e|]] eqn:Hc.
    + exists 1. unfold mundo_apos. simpl. rewrite ?take_0. simpl. rewrite Hc. simpl.
      split; [lia|]. do 2 (split; [done|]). split; [done|].
      intros e' [= <-]. split; [lia|]. exists c. by rewrite Hc.
    + destruct (IH (S i) w1) as (k & Hk & Hw & Hch & Hn & He).
      destruct (despacha cs (S i) ret w1) as [[w2 ch] e] eqn:Hd. simpl in *.
      exists (S k). split; [lia|]. split.
      { unfold mundo_apos in *. simpl. by rewrite Hc. }
      split; [by rewrite Hch|]. split.
      { intros ->. by rewrite Hn. }
      intros e' ->. destruct (He e' eq_refl) as (Hpos & c' & Hl & Hr).
      split; [lia|]. exists c'.
      replace (S k - 1) with (S (k - 1)) by lia. split; [done|].
      unfold mundo_apos in *. simpl. by rewrite Hc.
Qed.

Lemma despacha_sem_excecao cs i ret w :
  snd (despacha cs i ret w) = None ->
  despacha cs i ret w
  = (mundo_apos cs ret w, map (fun j => (j, ret)) (seq i (length cs)), None).
Proof.
  intros Hn. destruct (despacha_spec cs i ret w) as (k & _ & Hw & Hch & Hk & _).
  specialize (Hk Hn). subst k. rewrite firstn_all in Hw.
  destruct (despacha cs i ret w) as [[w' ch] e]. simpl in *. by subst.
Qed.

Lemma flt_fge x y : flt x y = true -> fge x y = false.
Proof. unfold flt, fge, SFltb. by destruct (SFcompare x y) as [[]|]. Qed.

Lemma float_lt_ge_num x r : float_ge_num x r = true -> float_lt_num x r = false.
Proof.
  destruct r as [z|f]; simpl.
  - unfold float_ge_int, float_lt_int. by destruct (float_cmp_int x z) as [[]|].
  - unfold fge, flt, SFltb. by destruct (SFcompare x f) as [[]|].
Qed.

Lemma _loop_corpo_amostra l linha_bytes w ret :
  decodifica linha_bytes = Amostra ret ->
  _loop_corpo l linha_bytes w
  = let '(w1, ch, e) :=
      match _nota_buffer l with
      | Some b => if inverteu l b ret then despacha (_callbacks l) 0 ret w
                  else (w, [], None)
      | None => (w, [], None)
      end in
    match e with
    | Some _ => {| it_listener := l; it_mundo := w1; it_chamadas := ch; it_erro := e |}
    | None => {| it_listener := com_nota_buffer l (Some ret); it_mundo := w1;
                 it_chamadas := ch; it_erro := None |}
    end.
Proof. intros H. unfold _loop_corpo. by rewrite H. Qed.


(** C3. When the line read gives a note [cur] whose [on] equals that of the
    buffered note [prev], or with [abs(prev.codigo - cur.codigo) >= range],
    no callback is called, the world of the callbacks is as it was, nothing
    is raised, and the buffer of the listener holds [cur]; the other fields
    of the listener are as they were. *)
Theorem no_edge_no_dispatch l prev cur linha_bytes w :
  _nota_buffer l = Some prev ->
  decodifica linha_bytes = Amostra cur ->
  on prev = on cur
  \/ float_ge_num (fabs (fsub (codigo prev) (codigo cur))) (_range l) = true ->
  let it := _loop_corpo l linha_bytes w in
  it_chamadas it = [] /\
  it_mundo it = w /\
  it_erro it = None /\
  _nota_buffer (it_listener it) = Some cur /\
  _input_port (it_listener it) = _input_port l /\
  _callbacks (it_listener it) = _callbacks l /\
  _range (it_listener it) = _range l /\
  _running (it_listener it) = _running l /\
  _thread (it_listener it) = _thread l.
Proof.
  intros Hb Hd Hcond it. subst it. rewrite (_loop_corpo_amostra _ _ _ _ Hd), Hb.
  assert (Hinv : inverteu l prev cur = false).
  { unfold inverteu. destruct Hcond as [-> | Hge].
    - rewrite eqb_reflx. simpl. apply andb_false_r.
    - by rewrite (float_lt_ge_num _ _ Hge). }
  rewrite Hinv. simpl. by repeat split.
Qed.

(** An exception leaves a turn of the loop only from [float()] or from a
    callback called on an edge. *)
Lemma _loop_corpo_erro l linha_bytes w e :
  it_erro (_loop_corpo l linha_bytes w) = Some e ->
  (e = ValueError /\ decodifica linha_bytes = Falha ValueError)
  \/ exists prev cur,
       _nota_buffer l = Some prev /\ decodifica linha_bytes = Amostra cur /\
       inverteu l prev cur = true /\
       snd (despacha (_callbacks l) 0 cur w) = Some e.
Proof.
  unfold _loop_corpo.
  destruct (decodifica linha_bytes) as [|e'|cur] eqn:Hd; simpl; [done| |].
  - intros [= ->]. left.
    unfold decodifica in Hd.
    destruct (Utf8.decode linha_bytes) as [linha|]; [|done].
    destruct (map strip (split ponto_e_virgula linha)) as [|x [|y [|z r]]]; try done.
    destruct (isnumeric x); [|done]. simpl in Hd.
    unfold float_of_numeric in *.
    destruct (digitos 0 x); [by destruct (negb _)|]. by injection Hd as <-.
  - destruct (_nota_buffer l) as [prev|]; [|done].
    destruct (inverteu l prev cur) eqn:Hinv; [|done].
    destruct (despacha (_callbacks l) 0 cur w) as [[w1 ch] [e'|]] eqn:Hdesp; [|done].
    simpl. intros [= ->]. right. exists prev, cur. by rewrite Hdesp.
Qed.

(** With nothing in the buffer the note read is only stored. *)
Lemma first_sample_is_buffered l cur linha_bytes w :
  _nota_buffer l = None ->
  decodifica linha_bytes = Amostra cur ->
  _loop_corpo l linha_bytes w
  = {| it_listener := com_nota_buffer l (Some cur); it_mundo := w;
       it_chamadas := []; it_erro := None |}.
Proof. intros Hb Hd. by rewrite (_loop_corpo_amostra _ _ _ _ Hd), Hb. Qed.

Lemma forma_valida_decodifica linha_bytes ret :
  decodifica linha_bytes = Amostra ret -> forma_valida linha_bytes = true.
Proof.
  unfold decodifica, forma_valida.
  destruct (Utf8.decode linha_bytes) as [linha|]; [|done].
  destruct (map strip (split ponto_e_virgula linha)) as [|x [|y [|z r]]]; try done.
  destruct (isnumeric x); [|done]. simpl.
  destruct (float_of_numeric x); [|done].
  by destruct (str_eqb y um || str_eqb y zero).
Qed.

(** C6. A line that fails the shape check (it does not decode, or has not
    two fields, or its first field is not numeric, or its second is neither
    ['1'] nor ['0']) leaves the listener, its buffer included, as it was,
    and no callback is called. The same holds of a line whose first field
    passes [isnumeric()] and is no float literal, on which the turn raises. *)
Theorem noise_line_leaves_buffer l linha_bytes w :
  forma_valida linha_bytes = false \/ (exists e, decodifica linha_bytes = Falha e) ->
  let it := _loop_corpo l linha_bytes w in
  it_listener it = l /\
  _nota_buffer (it_listener it) = _nota_buffer l /\
  it_chamadas it = [] /\
  it_mundo it = w.
Proof.
  intros Hf it. subst it. unfold _loop_corpo.
  destruct (decodifica linha_bytes) as [|e|ret] eqn:Hd; simpl; try done.
  apply forma_valida_decodifica in Hd. destruct Hf as [Hf|[e He]]; congruence.
Qed.

End Listener.

(** ** Tolerance and life cycle of the listener *)

Section Ciclo.
Context {W : Type}.
Import ListenerGuitarra.

Implicit Types (l : ListenerGuitarra.t W) (w : W) (a : Ambiente).
Implicit Types (s : ListenerGuitarra.Estado W).

Lemma SFcompare_antisym x y c :
  SFcompare x y = Some c -> SFcompare y x = Some (CompOpp c).
Proof.
  destruct x as [sx|sx| |sx mx ex], y as [sy|sy| |sy my ey]; simpl;
    try (intros [= <-]; by repeat case_match); try done.
  intros [= <-]. f_equal.
  change (Pos.compare_cont Eq my mx) with (my ?= mx)%positive.
  change (Pos.compare_cont Eq mx my) with (mx ?= my)%positive.
  rewrite (Z.compare_antisym ey ex), (Pos.compare_antisym my mx).
  by destruct sx, sy, (ey ?= ex)%Z, (my ?= mx)%positive.
Qed.

Lemma fle_of_not_flt x y :
  x <> S754_nan -> y <> S754_nan -> flt x y = false -> fle y x = true.
Proof.
  unfold flt, fle, SFltb, SFleb. intros Hx Hy.
  destruct (SFcompare x y) as [c|] eqn:Hc.
  - rewrite (SFcompare_antisym _ _ _ Hc). by destruct c.
  - by destruct x, y.
Qed.

Lemma float_ge_int_of_not_lt x z :
  x <> S754_nan -> float_lt_int x z = false -> float_ge_int x z = true.
Proof.
  unfold float_lt_int, float_ge_int. intros Hx.
  destruct (float_cmp_int x z) as [[]|] eqn:Hc; try done. by destruct x.
Qed.

(** C7, as amended. The setter acts on floats only: a float above 0.5
    gives 0.5, a float below 0 gives 0, any other float is stored as it is,
    so that the stored value lies in [0, 0.5] unless the float is NaN; the
    other fields are untouched. A value that is not a float, an int
    included, is ignored and nothing is raised. *)
Theorem range_setter_clamps_floats l value :
  match como_float value with
  | Some v =>
      (flt meio v = true -> _range (range_setter l value) = PyFloat meio) /\
      (flt meio v = false -> float_lt_int v 0 = true ->
         _range (range_setter l value) = PyInt 0) /\
      (flt meio v = false -> float_lt_int v 0 = false ->
         _range (range_setter l value) = PyFloat v) /\
      (v <> S754_nan -> de_zero_a_meio (_range (range_setter l value)) = true) /\
      range_setter l value = com_range l (_range (range_setter l value))
  | None => range_setter l value = l
  end.
Proof.
  unfold range_setter. destruct (como_float value) as [v|]; [|done].
  destruct (flt meio v) eqn:Hgt; [|destruct (float_lt_int v 0) eqn:Hlt]; simpl;
    (split; [done|]); (split; [done|]); (split; [done|]); (split; [|done]);
    try done.
  intros Hnan. rewrite float_ge_int_of_not_lt by done. simpl.
  apply fle_of_not_flt; done.
Qed.

(** C1, on the code. After [start] on a new listener, [stop] returns with
    the running flag still set and the thread still alive: it changes
    nothing. *)
Theorem stop_leaves_the_thread_running (ps : gmap loc Serial) :
  let '(l1, a1) := start (@novo W) (ambiente_inicial ps) in
  let '(l2, a2) := stop l1 a1 in
  _running l1 = true /\ _running l2 = true /\
  _thread l2 = Some 0 /\ vivas a2 = {[0]} /\ (l2, a2) = (l1, a1).
Proof.
  unfold start, stop, novo, Thread_start, ambiente_inicial. simpl.
  repeat split; set_solver.
Qed.

(** [close], for comparison, clears the flag and joins the thread: it
    returns only once the thread has ended. *)
Lemma close_joins_the_thread l a th :
  _running l = true -> _thread l = Some th ->
  let '(l', a', fim) := close l a in
  _running l' = false /\ a' = a /\
  (th ∉ vivas a -> fim = Retornou /\ _thread l' = None) /\
  (th ∈ vivas a -> fim = Espera /\ _thread l' = Some th).
Proof.
  intros Hr Ht. unfold close, Thread_join. rewrite Hr, Ht.
  case_bool_decide as Hv; simpl; (split; [done|]); (split; [done|]); split; done.
Qed.


Lemma _loop_thread `{UCD : UnicodeData} th s :
  _thread (ouvinte (fst (_loop th s))) = _thread (ouvinte s) /\
  vivas (amb (fst (_loop th s))) ⊆ vivas (amb s).
Proof.
  unfold _loop.
  destruct (bool_decide (th ∈ vivas (amb s))); simpl; [|done].
  assert (Hfim : vivas (amb (fim_da_thread th s)) ⊆ vivas (amb s)).
  { intros x [Hx _]%elem_of_difference. exact Hx. }
  destruct (_running (ouvinte s)); simpl; [|done].
  destruct (_input_port (ouvinte s)) as [p|]; simpl; [|done].
  destruct (is_open (porta (amb s) p)); simpl; [|done].
  destruct (rx (porta (amb s) p)) as [|linha resto]; simpl; [done|].
  assert (Hth : _thread (it_listener (_loop_corpo (ouvinte s) linha (mundo s)))
                = _thread (ouvinte s)).
  { unfold _loop_corpo. destruct (decodifica linha); try done.
    destruct (_nota_buffer (ouvinte s)) as [b|]; [|done].
    destruct (inverteu (ouvinte s) b ret); [|done].
    destruct (despacha _ _ _ _) as [[w1 ch] [e|]]; done. }
  destruct (it_erro _); simpl; (split; [done|]); [|done].
  intros x [Hx _]%elem_of_difference. exact Hx.
Qed.

Lemma join_retorna_resto s :
  _running (ouvinte (join_retorna s)) = _running (ouvinte s) /\
  amb (join_retorna s) = amb s /\ mundo (join_retorna s) = mundo s /\
  (_running (ouvinte s) = true -> join_retorna s = s).
Proof.
  unfold join_retorna. destruct (_thread (ouvinte s)) as [th|]; [|done].
  destruct (_running (ouvinte s)) eqn:Hr; simpl; [done|].
  by destruct (bool_decide (th ∈ vivas (amb s))).
Qed.

Lemma join_retorna_uma_thread s : uma_thread s -> uma_thread (join_retorna s).
Proof.
  intros Hinv. unfold join_retorna.
  destruct (_thread (ouvinte s)) as [th|] eqn:Ht; [|done].
  destruct (_running (ouvinte s)); simpl; [done|].
  case_bool_decide as Hv; simpl; [done|].
  intros x Hx. simpl in *. specialize (Hinv x Hx). rewrite Ht in Hinv.
  injection Hinv as ->. done.
Qed.

Lemma executa_uma_thread `{UCD : UnicodeData} s ac :
  uma_thread s -> uma_thread (executa s ac).
Proof.
  intros Hinv. destruct ac; simpl.
  - unfold start. destruct (_running (ouvinte s)) eqn:Hr; simpl; [by destruct s|].
    case_bool_decide as Ht; simpl; [|by destruct s].
    intros th. simpl. intros Hth.
    apply elem_of_union in Hth as [Hth|Hth]; [by apply elem_of_singleton in Hth as ->|].
    specialize (Hinv th Hth). congruence.
  - by destruct s.
  - unfold close, Thread_join. destruct (_running (ouvinte s)) eqn:Hr; [|by destruct s].
    destruct (_thread (ouvinte s)) as [t0|] eqn:Ht.
    + case_bool_decide as Hv; intros th; simpl; intros Hth;
        specialize (Hinv th Hth); rewrite Ht in Hinv; [done|].
      injection Hinv as ->. done.
    + intros th. simpl. intros Hth. specialize (Hinv th Hth). congruence.
  - done.
  - intros th Hth. simpl in *. rewrite <- (Hinv th Hth).
    unfold range_setter. destruct (como_float value) as [v|]; [|done].
    by repeat case_match.
  - unfold input_port_setter.
    destruct (is_open (porta (amb s) port)); simpl.
    + intros th. simpl. destruct (_input_port (ouvinte s)); simpl; apply Hinv.
    + unfold Serial_open. destruct (abre (porta (amb s) port)); simpl.
      * intros th. simpl. destruct (_input_port (ouvinte s)); simpl; apply Hinv.
      * by destruct s.
  - done.
  - apply join_retorna_uma_thread.
    intros th' Hth'. destruct (_loop_thread th s) as [-> Hsub]. apply Hinv.
    by apply Hsub.
Qed.

Lemma executa_todas_uma_thread `{UCD : UnicodeData} acs s :
  uma_thread s -> uma_thread (executa_todas s acs).
Proof.
  revert s. induction acs as [|ac acs IH]; intros s Hs; [done|].
  simpl. apply IH. by apply executa_uma_thread.
Qed.

Lemma _loop_running `{UCD : UnicodeData} th s :
  _running (ouvinte (fst (_loop th s))) = _running (ouvinte s).
Proof.
  unfold _loop.
  destruct (bool_decide (th ∈ vivas (amb s))); simpl; [|done].
  destruct (_running (ouvinte s)) eqn:Hr; simpl; [|done].
  destruct (_input_port (ouvinte s)) as [p|]; simpl; [|done].
  destruct (is_open (porta (amb s) p)); simpl; [|done].
  destruct (rx (porta (amb s) p)) as [|linha resto]; simpl; [done|].
  assert (Hit : _running (it_listener (_loop_corpo (ouvinte s) linha (mundo s))) = true).
  { unfold _loop_corpo. destruct (decodifica linha); try done.
    destruct (_nota_buffer (ouvinte s)) as [b|]; [|done].
    destruct (inverteu (ouvinte s) b ret); [|done].
    destruct (despacha _ _ _ _) as [[w1 ch] [e|]]; done. }
  by destruct (it_erro _).
Qed.

(** What an action other than [close] leaves of a running listener: the
    flag and the thread of [_thread]; no thread is added to the live ones,
    and none ends but at a turn. *)
Lemma executa_sem_close `{UCD : UnicodeData} s ac :
  ac <> ChamaClose ->
  _running (ouvinte s) = true ->
  _running (ouvinte (executa s ac)) = true /\
  _thread (ouvinte (executa s ac)) = _thread (ouvinte s) /\
  vivas (amb (executa s ac)) ⊆ vivas (amb s) /\
  ((forall th, ac <> Turno th) -> vivas (amb (executa s ac)) = vivas (amb s)).
Proof.
  intros Hac Hr. destruct ac; simpl; try done.
  - unfold start. rewrite Hr. simpl. done.
  - unfold range_setter. destruct (como_float value) as [v|]; [|done].
    by repeat case_match.
  - unfold input_port_setter, Serial_open.
    destruct (is_open (porta (amb s) port)); simpl.
    + by destruct (_input_port (ouvinte s)).
    + destruct (abre (porta (amb s) port)); simpl; [|done].
      by destruct (_input_port (ouvinte s)).
  - assert (Hr1 : _running (ouvinte (fst (_loop th s))) = true)
      by (by rewrite _loop_running).
    destruct (join_retorna_resto (fst (_loop th s))) as (_ & _ & _ & Hj).
    rewrite (Hj Hr1). destruct (_loop_thread th s) as [Ht Hsub].
    split; [done|]. split; [done|]. split; [done|].
    intros Hno. by destruct (Hno th).
Qed.

Lemma executa_running `{UCD : UnicodeData} s ac :
  ac <> ChamaClose ->
  _running (ouvinte s) = true -> _running (ouvinte (executa s ac)) = true.
Proof. intros Hac Hr. by destruct (executa_sem_close s ac Hac Hr) as [? _]. Qed.







End Ciclo.

(** ** Numbers and dictionaries *)

Section Numeros.

Lemma cond_Zopp_mul s a b : (cond_Zopp s a * b = cond_Zopp s (a * b))%Z.
Proof. destruct s; simpl; lia. Qed.

Lemma float_cmp_int_Eq f x :
  float_cmp_int f x = Some Eq ->
  match f with
  | S754_zero _ => x = 0%Z
  | S754_finite s m e =>
      if (0 <=? e)%Z then (cond_Zopp s (Zpos m) * 2 ^ e = x)%Z
      else (cond_Zopp s (Zpos m) = x * 2 ^ (- e))%Z
  | _ => False
  end.
Proof.
  destruct f as [s|s| |s m e]; unfold float_cmp_int; try done.
  - intros H%(inj Some). by apply Z.compare_eq_iff in H.
  - by destruct s.
  - intros H%(inj Some). destruct (0 <=? e)%Z; by apply Z.compare_eq_iff in H.
Qed.

Lemma float_eq_int_Eq f x : float_eq_int f x = true <-> float_cmp_int f x = Some Eq.
Proof.
  unfold float_eq_int. destruct (float_cmp_int f x) as [[]|]; split; done.
Qed.

Lemma float_eq_int_inj f x y :
  float_eq_int f x = true -> float_eq_int f y = true -> x = y.
Proof.
  rewrite !float_eq_int_Eq. intros Hx%float_cmp_int_Eq Hy%float_cmp_int_Eq.
  destruct f as [s|s| |s m e]; try done; [congruence|].
  destruct (0 <=? e)%Z eqn:He; [congruence|].
  apply Z.leb_gt in He.
  assert (0 < 2 ^ (- e))%Z by (apply Z.pow_pos_nonneg; lia). nia.
Qed.

Lemma num_eq_int_inj c x y :
  num_eq_int c x = true -> num_eq_int c y = true -> x = y.
Proof.
  destruct c as [z|f]; simpl.
  - intros ->%Z.eqb_eq ->%Z.eqb_eq. done.
  - apply float_eq_int_inj.
Qed.

Lemma float_eq_int_int f x : float_eq_int f x = true -> int (PyFloat f) = Retorna x.
Proof.
  rewrite float_eq_int_Eq. intros H%float_cmp_int_Eq.
  destruct f as [s|s| |s m e]; try done; simpl; [by subst|].
  f_equal. destruct (0 <=? e)%Z eqn:He.
  - by rewrite <- cond_Zopp_mul.
  - apply Z.leb_gt in He.
    assert (Hp : (0 < 2 ^ (- e))%Z) by (apply Z.pow_pos_nonneg; lia).
    destruct s; simpl in *.
    + assert (Hm : (Z.pos m = (- x) * 2 ^ (- e))%Z) by lia.
      rewrite Hm, Z.div_mul by lia. lia.
    + rewrite H, Z.div_mul by lia. done.
Qed.

Lemma SFeqb_mesmo f g :
  SFeqb f g = true ->
  int (PyFloat f) = int (PyFloat g) /\ forall z, float_cmp_int f z = float_cmp_int g z.
Proof.
  unfold SFeqb.
  destruct f as [s|s| |s m e], g as [s'|s'| |s' m' e']; simpl; try done;
    try (by destruct s); try (by destruct s').
  - by destruct s, s'.
  - assert (Hcc : forall c, CompOpp c = Eq -> c = Eq) by (by intros []).
    intros H.
    assert (s = s' /\ e = e' /\ m = m') as (-> & -> & ->); [|done].
    destruct s, s'; try done;
      destruct (e ?= e')%Z eqn:He; try done;
      apply Z.compare_eq_iff in He;
      destruct (Pos.compare_cont Eq m m') eqn:Hm; try done;
      change (Pos.compare_cont Eq m m') with (m ?= m')%positive in Hm;
      apply Pos.compare_eq_iff in Hm; done.
Qed.

Lemma num_eqb_mesmo c' c :
  num_eqb c' c = true ->
  int c' = int c /\ forall z, num_eq_int c' z = num_eq_int c z.
Proof.
  destruct c' as [x|f], c as [y|g]; cbn [num_eqb num_eq_int].
  - by intros ->%Z.eqb_eq.
  - intros H. split; [by rewrite (float_eq_int_int _ _ H)|].
    intros z. destruct (Z.eqb_spec x z) as [->|Hne]; [done|].
    destruct (float_eq_int g z) eqn:Hz; [|done].
    destruct Hne. by apply (float_eq_int_inj g).
  - intros H. split; [by rewrite (float_eq_int_int _ _ H)|].
    intros z. destruct (Z.eqb_spec y z) as [->|Hne]; [done|].
    destruct (float_eq_int f z) eqn:Hz; [|done].
    destruct Hne. by apply (float_eq_int_inj f).
  - intros [Hi Hc]%SFeqb_mesmo. split; [done|].
    intros z. unfold float_eq_int. by rewrite Hc.
Qed.

(** An int is an integer code as soon as it fits in a float. *)
Lemma codigo_inteiro_PyInt z fv :
  float_of_int z = Retorna fv -> codigo_inteiro (PyInt z) z.
Proof.
  intros H. unfold codigo_inteiro. simpl. rewrite Z.eqb_refl.
  split; [done|]. split; [done|]. split; [done|]. by exists fv.
Qed.

Lemma dict_setitem_novo {V} (d : dict V) c v :
  Forall (fun c' => num_eqb c' c = false) (dict_keys d) ->
  dict_setitem d c v = d ++ [(c, v)].
Proof.
  induction d as [|[c' v'] d IH]; simpl; [done|].
  intros [Hc Hd]%Forall_cons. rewrite Hc. by rewrite IH.
Qed.

Lemma dict_keys_setitem {V} (P : numero -> Prop) (d : dict V) c v :
  Forall P (dict_keys d) -> P c -> Forall P (dict_keys (dict_setitem d c v)).
Proof.
  induction d as [|[c' v'] d IH]; simpl; intros Hd Hc.
  - by constructor.
  - apply Forall_cons in Hd as [Hc' Hd].
    destruct (num_eqb c' c); simpl; constructor; auto.
Qed.

Lemma dict_getitem_falta {V} (d : dict V) k :
  Forall (fun c => num_eq_int c k = false) (dict_keys d) ->
  dict_getitem d k = Levanta (KeyError k).
Proof.
  induction d as [|[c v] d IH]; simpl; [done|].
  intros [Hc Hd]%Forall_cons. rewrite Hc. by apply IH.
Qed.

End Numeros.

(** ** The interface *)

Section Interface.
Context `{UCD : UnicodeData} {U : Type}.
Import InterfaceGuitarra.

Implicit Types (i : InterfaceGuitarra.t U) (nota : NotaGuitarra) (u : U).
Implicit Types (kwargs : list (string * numero)) (vs : list Z).
Implicit Types (log : list NotaProcessada.t) (d : dict string).

Lemma Forall2_conj {A B} (P Q : A -> B -> Prop) (xs : list A) (ys : list B) :
  Forall2 P xs ys -> Forall2 Q xs ys -> Forall2 (fun a b => P a b /\ Q a b) xs ys.
Proof. induction 1; inversion 1; subst; constructor; auto. Qed.

Lemma dict_getitem_app_skip d1 d2 k :
  Forall (fun c => num_eq_int c k = false) (dict_keys d1) ->
  dict_getitem (d1 ++ d2) k = dict_getitem d2 k.
Proof.
  induction d1 as [|[c v] d1 IH]; simpl; [done|].
  intros [Hc Hd]%Forall_cons. rewrite Hc. by apply IH.
Qed.

Lemma codigo_inteiro_num_eqb c' c v' v :
  codigo_inteiro c' v' -> codigo_inteiro c v -> num_eqb c' c = true -> v' = v.
Proof.
  intros (_ & H' & _) (_ & H & _) [_ Heq]%num_eqb_mesmo.
  rewrite Heq in H'. by apply (num_eq_int_inj c).
Qed.

Lemma base_atribui_notas_inteiros kwargs vs d ds :
  Forall2 codigo_inteiro (dict_keys d) ds ->
  Forall2 (fun kv v => codigo_inteiro (snd kv) v) kwargs vs ->
  NoDup (ds ++ vs) ->
  base_atribui_notas d kwargs = d ++ map (fun kv => (snd kv, fst kv)) kwargs.
Proof.
  intros Hd Hk. revert d ds Hd.
  induction Hk as [|[nm c] v kwargs vs Hc Hk IH]; intros d ds Hd Hnd.
  - by rewrite app_nil_r.
  - unfold base_atribui_notas in *. simpl in *.
    assert (Hnovo : Forall (fun c' => num_eqb c' c = false) (dict_keys d)).
    { apply Forall_forall. intros c' Hin.
      destruct (num_eqb c' c) eqn:Heq; [|done].
      apply list_elem_of_lookup in Hin as [j Hj].
      destruct (Forall2_lookup_l _ _ _ _ _ Hd Hj) as (v' & Hv' & Hc').
      assert (v' = v) as -> by (by apply (codigo_inteiro_num_eqb c' c)).
      apply NoDup_app in Hnd as (_ & Hdis & _).
      destruct (Hdis v); [by eapply list_elem_of_lookup_2|left]. }
    rewrite (dict_setitem_novo _ _ _ Hnovo).
    rewrite (IH (d ++ [(c, nm)]) (ds ++ [v])).
    + by rewrite <- app_assoc.
    + unfold dict_keys. rewrite map_app. apply Forall2_app; [done|].
      by constructor.
    + by rewrite <- app_assoc.
Qed.

Lemma atribui_notas_for_int keys vs acc :
  Forall2 (fun c v => int c = Retorna v) keys vs ->
  atribui_notas_for keys acc = (acc ++ vs, None).
Proof.
  intros H. revert acc. induction H as [|c v keys vs Hc H IH]; intros acc; simpl.
  - by rewrite app_nil_r.
  - rewrite Hc, IH. by rewrite <- app_assoc.
Qed.

Lemma dict_getitem_inteiros kwargs vs d :
  Forall (fun c => Forall (fun v => num_eq_int c v = false) vs) (dict_keys d) ->
  Forall2 (fun kv v => codigo_inteiro (snd kv) v) kwargs vs ->
  NoDup vs ->
  Forall2 (fun kv v =>
    dict_getitem (d ++ map (fun kv => (snd kv, fst kv)) kwargs) v = Retorna (fst kv))
    kwargs vs.
Proof.
  intros Hd Hk. revert d Hd.
  induction Hk as [|[nm c] v kwargs vs Hc Hk IH]; intros d Hd Hnd; [constructor|].
  apply NoDup_cons in Hnd as [Hv Hnd]. constructor.
  - rewrite dict_getitem_app_skip.
    + destruct Hc as (_ & Hcv & _). simpl in *. by rewrite Hcv.
    + eapply Forall_impl; [exact Hd|]. intros c' Hc'. by apply Forall_cons in Hc' as [? _].
  - simpl. specialize (IH (d ++ [(c, nm)])).
    rewrite <- app_assoc in IH. simpl in IH. apply IH; [|done].
    unfold dict_keys. rewrite map_app. apply Forall_app. split.
    + eapply Forall_impl; [exact Hd|]. intros c' Hc'. by apply Forall_cons in Hc' as [_ ?].
    + constructor; [|constructor]. simpl. apply Forall_forall. intros v' Hv'.
      destruct (num_eq_int c v') eqn:Heq; [|done].
      destruct Hc as (_ & Hcv & _).
      assert (v' = v) as -> by (by apply (num_eq_int_inj c)). done.
Qed.

Lemma _callback_for_resolvidas i nota kwargs vs u log :
  (forall np u', snd (_callback_usuario i np u') = None) ->
  Forall2 (fun kv v => codigo_inteiro (snd kv) v
                       /\ dict_getitem (_dicionario i) v = Retorna (fst kv)) kwargs vs ->
  _callback_for vs i nota u log
  = (usuario_apos i (resolvidas i nota kwargs) u, log ++ resolvidas i nota kwargs, None).
Proof.
  intros Hcb Hk. revert u log.
  induction Hk as [|[nm c] v kwargs vs [Hc Hg] Hk IH]; intros u log.
  - unfold resolvidas. simpl. by rewrite app_nil_r.
  - destruct Hc as (_ & _ & Hf & fv & Hfv). simpl in *.
    unfold resolvidas, perto. simpl. rewrite Hf, Hfv.
    destruct (fle (fabs (fsub (codigo nota) fv)) (_range i)); [|apply IH].
    rewrite Hg. simpl.
    specialize (Hcb {| NotaProcessada.nome := nm; NotaProcessada.on := on nota |} u).
    destruct (_callback_usuario i _ u) as [u1 e] eqn:Hu. simpl in Hcb. subst e.
    rewrite IH. simpl. by rewrite <- app_assoc.
Qed.

(** C5, as amended. For an interface configured once, with bound codes
    that are integers, distinct from one another, and a user's callback
    that returns, [_callback] hands to the user's callback, for every raw
    note, the [NotaProcessada] of each binding (its name, the note's [on])
    whose code is within [_range] of the note's code, in the order of the
    bindings, and nothing else; it raises nothing. *)
Theorem resolver_emits_bindings_within_range
  serial_port (cb : Callable NotaProcessada.t U) rangen i0 kwargs vs nota u log :
  __init__ serial_port cb rangen = Retorna i0 ->
  Forall2 (fun kv v => codigo_inteiro (snd kv) v) kwargs vs ->
  NoDup vs ->
  (forall np u', snd (cb np u') = None) ->
  exists i1,
    atribui_notas i0 kwargs = (i1, None) /\
    _range i1 = _range i0 /\
    _callback nota {| self := i1; usuario := u; entregues := log |}
    = ({| self := i1;
          usuario := usuario_apos i1 (resolvidas i1 nota kwargs) u;
          entregues := log ++ resolvidas i1 nota kwargs |}, None).
Proof.
  intros Hinit Hk Hnd Hcb.
  assert (Hi0 : _dicionario i0 = [] /\ _valores_dicionario i0 = []
                /\ _callback_usuario i0 = cb).
  { unfold __init__ in Hinit. destruct (como_float rangen) as [r|]; [|done].
    destruct (int_lt_float 0 r && fle r meio); [|done].
    by injection Hinit as <-. }
  destruct Hi0 as (Hd0 & Hv0 & Hcb0).
  assert (Hbase : base_atribui_notas [] kwargs
                  = map (fun kv => (snd kv, fst kv)) kwargs).
  { apply (base_atribui_notas_inteiros kwargs vs [] []); [constructor|done|done]. }
  assert (Hkeys : Forall2 (fun c v => int c = Retorna v)
                    (dict_keys (map (fun kv => (snd kv, fst kv)) kwargs)) vs).
  { unfold dict_keys. rewrite map_map. simpl. apply Forall2_fmap_l.
    eapply Forall2_impl; [exact Hk|]. by intros kv v (? & _). }
  eexists. unfold atribui_notas. rewrite Hd0, Hv0, Hbase.
  rewrite (atribui_notas_for_int _ _ _ Hkeys). simpl.
  split; [reflexivity|]. split; [reflexivity|].
  unfold _callback. simpl.
  rewrite (_callback_for_resolvidas _ nota kwargs vs).
  - done.
  - simpl. by rewrite Hcb0.
  - simpl. pose proof (dict_getitem_inteiros kwargs vs [] (List.Forall_nil _) Hk Hnd) as Hg.
    by apply Forall2_conj.
Qed.

Lemma start_callbacks (s : InterfaceGuitarra.Estado U) :
  ListenerGuitarra._callbacks (ListenerGuitarra.ouvinte (fst (start s)))
  = ListenerGuitarra._callbacks (ListenerGuitarra.ouvinte s) ++ [fun x => _callback x]
  /\ ListenerGuitarra.mundo (fst (start s)) = ListenerGuitarra.mundo s.
Proof.
  unfold start, ListenerGuitarra.input_port_setter.
  destruct (if is_open _ then _ else _) as [a1|e]; simpl; [|done].
  unfold ListenerGuitarra.start. simpl.
  by destruct (negb _ && _).
Qed.

Lemma start_vezes_callbacks n (s : InterfaceGuitarra.Estado U) :
  ListenerGuitarra._callbacks (ListenerGuitarra.ouvinte (start_vezes n s))
  = ListenerGuitarra._callbacks (ListenerGuitarra.ouvinte s)
    ++ replicate n (fun x => _callback x)
  /\ ListenerGuitarra.mundo (start_vezes n s) = ListenerGuitarra.mundo s.
Proof.
  induction n as [|n [IHc IHm]].
  - simpl. by rewrite app_nil_r.
  - destruct (start_callbacks (start_vezes n s)) as [Hc Hm].
    rewrite replicate_S_end.
    change (start_vezes (S n) s) with (fst (start (start_vezes n s))).
    rewrite Hc, Hm, IHc, IHm. by rewrite <- app_assoc.
Qed.









Lemma _callback_for_app vs1 vs2 i nota u log :
  _callback_for (vs1 ++ vs2) i nota u log
  = match _callback_for vs1 i nota u log with
    | (u1, log1, None) => _callback_for vs2 i nota u1 log1
    | r => r
    end.
Proof.
  revert u log. induction vs1 as [|valor vs1 IH]; intros u log; simpl; [done|].
  destruct (float_of_int valor) as [v|e]; [|done].
  destruct (fle _ _); [|apply IH].
  destruct (dict_getitem _ valor) as [nm|e]; [|done].
  destruct (_callback_usuario i _ u) as [u1 [e|]]; [done|]. apply IH.
Qed.

Lemma dict_setitem_cobre d c (nm : string) :
  (forall c0, c0 ∈ dict_keys d -> c0 ∈ dict_keys (dict_setitem d c nm)) /\
  exists c', c' ∈ dict_keys (dict_setitem d c nm) /\ (c' = c \/ num_eqb c' c = true).
Proof.
  induction d as [|[c0 nm0] d [IH1 (c' & Hin & Hc')]]; simpl.
  - split; [intros c0 H0; by apply elem_of_nil in H0|].
    exists c. split; [apply elem_of_cons; by left|by left].
  - destruct (num_eqb c0 c) eqn:Heq; simpl.
    + split; [done|]. exists c0. split; [apply elem_of_cons; by left|by right].
    + split.
      * intros c1 [->|Hin1]%elem_of_cons; apply elem_of_cons; [by left|right; by apply IH1].
      * exists c'. split; [apply elem_of_cons; by right|done].
Qed.

Lemma base_atribui_notas_cobre kwargs d :
  (forall c0, c0 ∈ dict_keys d -> c0 ∈ dict_keys (base_atribui_notas d kwargs)) /\
  forall kv, kv ∈ kwargs ->
    exists c', c' ∈ dict_keys (base_atribui_notas d kwargs)
               /\ (c' = snd kv \/ num_eqb c' (snd kv) = true).
Proof.
  revert d. induction kwargs as [|[nm c] kwargs IH]; intros d.
  - split; [done|]. intros kv Hin. by apply elem_of_nil in Hin.
  - unfold base_atribui_notas in *. simpl.
    destruct (IH (dict_setitem d c nm)) as [IH1 IH2].
    destruct (dict_setitem_cobre d c nm) as [Hs1 (c' & Hin' & Hc')].
    split; [by intros c0 Hc0; apply IH1, Hs1|].
    intros kv [->|Hin]%elem_of_cons; [|by apply IH2].
    exists c'. split; [by apply IH1|done].
Qed.

Lemma base_atribui_notas_keys (P : numero -> Prop) kwargs d :
  Forall P (dict_keys d) -> Forall (fun kv => P (snd kv)) kwargs ->
  Forall P (dict_keys (base_atribui_notas d kwargs)).
Proof.
  intros Hd Hk. revert d Hd.
  induction Hk as [|[nm c] kwargs Hc Hk IH]; intros d Hd; [done|].
  unfold base_atribui_notas in *. simpl. apply IH. by apply dict_keys_setitem.
Qed.

Lemma int_de_todas (keys : list numero) :
  Forall (fun c => exists z, int c = Retorna z) keys ->
  exists vs, Forall2 (fun c v => int c = Retorna v) keys vs.
Proof.
  induction 1 as [|c keys [z Hz] _ [vs IH]].
  - exists []. constructor.
  - exists (z :: vs). by constructor.
Qed.

(** C10, as amended. Let a binding have a code [c] with a fractional part,
    [v] being [int(c)], and let no bound code be equal to [v]. If every
    code converts to an int, the configuration succeeds, and [v] is among
    the values that [_callback] scans. Any later raw note within [_range]
    of [v] then makes [_callback] raise: KeyError for [v] when the scan of
    the values before [v] returns, and otherwise what that scan raised. The
    exception is not caught in [_loop]: it leaves the turn of the loop that
    called the callback. *)
Theorem fractional_code_raises_KeyError
  serial_port (cb : Callable NotaProcessada.t U) rangen i0 kwargs nm c v :
  __init__ serial_port cb rangen = Retorna i0 ->
  (nm, c) ∈ kwargs ->
  int c = Retorna v ->
  Forall (fun kv => exists z, int (snd kv) = Retorna z) kwargs ->
  Forall (fun kv => num_eq_int (snd kv) v = false) kwargs ->
  exists i1 vs1 vs2,
    atribui_notas i0 kwargs = (i1, None) /\
    _valores_dicionario i1 = vs1 ++ v :: vs2 /\
    forall nota u log fv,
      float_of_int v = Retorna fv ->
      fle (fabs (fsub (codigo nota) fv)) (_range i1) = true ->
      let m := {| self := i1; usuario := u; entregues := log |} in
      (exists e, snd (_callback nota m) = Some e) /\
      (forall u1 log1,
         _callback_for vs1 i1 nota u log = (u1, log1, None) ->
         _callback nota m
         = ({| self := i1; usuario := u1; entregues := log1 |}, Some (KeyError v))) /\
      (forall (l : ListenerGuitarra.t (Mundo U)) cs prev linha_bytes,
         ListenerGuitarra._callbacks l = (fun x => _callback x) :: cs ->
         ListenerGuitarra._nota_buffer l = Some prev ->
         ListenerGuitarra.decodifica linha_bytes = ListenerGuitarra.Amostra nota ->
         ListenerGuitarra.inverteu l prev nota = true ->
         ListenerGuitarra.it_erro (ListenerGuitarra._loop_corpo l linha_bytes m)
         = snd (_callback nota m)).
Proof.
  intros Hinit Hin Hv Hint Hne.
  assert (Hi0 : _dicionario i0 = [] /\ _valores_dicionario i0 = []).
  { unfold __init__ in Hinit. destruct (como_float rangen) as [r|]; [|done].
    destruct (int_lt_float 0 r && fle r meio); [|done].
    by injection Hinit as <-. }
  destruct Hi0 as [Hd0 Hv0].
  set (d := base_atribui_notas [] kwargs).
  assert (Hkint : Forall (fun c' => exists z, int c' = Retorna z) (dict_keys d)).
  { by apply base_atribui_notas_keys. }
  assert (Hkne : Forall (fun c' => num_eq_int c' v = false) (dict_keys d)).
  { by apply base_atribui_notas_keys. }
  destruct (int_de_todas _ Hkint) as [vs Hvs].
  destruct (base_atribui_notas_cobre kwargs []) as [_ Hcob].
  destruct (Hcob _ Hin) as (c' & Hc'in & Hc'). simpl in Hc'. fold d in Hc'in.
  assert (Hc'v : int c' = Retorna v).
  { destruct Hc' as [->|Heq]; [done|]. apply num_eqb_mesmo in Heq as [-> _]. done. }
  assert (Hvin : v ∈ vs).
  { apply list_elem_of_lookup in Hc'in as [j Hj].
    destruct (Forall2_lookup_l _ _ _ _ _ Hvs Hj) as (v' & Hv' & Hcv').
    rewrite Hc'v in Hcv'. injection Hcv' as <-. by eapply list_elem_of_lookup_2. }
  apply list_elem_of_split in Hvin as (vs1 & vs2 & ->).
  eexists _, vs1, vs2. unfold atribui_notas. rewrite Hd0, Hv0. fold d.
  rewrite (atribui_notas_for_int _ _ _ Hvs). simpl.
  split; [reflexivity|]. split; [reflexivity|].
  set (i1 := {| _porta := _porta i0; _valores_dicionario := vs1 ++ v :: vs2;
                _dicionario := d; _range := _range i0;
                _callback_usuario := _callback_usuario i0 |}).
  intros nota u log fv Hfv Hfle.
  set (m := {| self := i1; usuario := u; entregues := log |}).
  assert (Hscan : forall u1 log1,
            _callback_for vs1 (self m) nota u log = (u1, log1, None) ->
            _callback nota m
            = ({| self := self m; usuario := u1; entregues := log1 |}, Some (KeyError v))).
  { intros u1 log1 H1. unfold _callback. subst m. simpl in *.
    rewrite _callback_for_app, H1. simpl. rewrite Hfv, Hfle.
    by rewrite (dict_getitem_falta _ _ Hkne). }
  assert (Hraise : exists e, snd (_callback nota m) = Some e).
  { destruct (_callback_for vs1 (self m) nota u log) as [[u1 log1] [e|]] eqn:H1.
    - exists e. unfold _callback. subst m. simpl in *.
      by rewrite _callback_for_app, H1.
    - exists (KeyError v). by rewrite (Hscan _ _ eq_refl). }
  split; [done|]. split; [exact Hscan|].
  intros l cs prev linha_bytes Hl Hb Hd Hinv.
  rewrite (_loop_corpo_amostra _ _ _ _ Hd), Hb, Hinv, Hl. simpl.
  destruct Hraise as [e He].
  destruct (_callback nota m) as [m1 e']. simpl in He. by subst e'.
Qed.

End Interface.

(** ** The code on concrete inputs *)

Section Concreto.
Import Exemplos Cenarios.
#[local] Existing Instance Latin1.ucd.

(** The scenarios of the specification: ["1;0"] then ["1;1"] gives one
    call with [(1.0, on)]; ["1;0"] then ["9;1"] gives none and leaves
    [(9.0, on)] in the buffer. *)
Example cenario_1_0_1_1 :
  let l1 := depois_de (registrados [anota 0]) (linha "1;0") [] in
  ListenerGuitarra._nota_buffer l1 = Some (nota 1 false) /\
  ListenerGuitarra._loop_corpo l1 (linha "1;1") []
  = {| ListenerGuitarra.it_listener :=
         ListenerGuitarra.com_nota_buffer l1 (Some (nota 1 true));
       ListenerGuitarra.it_mundo := [(0, nota 1 true)];
       ListenerGuitarra.it_chamadas := [(0, nota 1 true)];
       ListenerGuitarra.it_erro := None |}.
Proof. split; vm_compute; reflexivity. Qed.

Example cenario_1_0_9_1 :
  let l1 := depois_de (registrados [anota 0]) (linha "1;0") [] in
  ListenerGuitarra._loop_corpo l1 (linha "9;1") []
  = {| ListenerGuitarra.it_listener :=
         ListenerGuitarra.com_nota_buffer l1 (Some (nota 9 true));
       ListenerGuitarra.it_mundo := [];
       ListenerGuitarra.it_chamadas := [];
       ListenerGuitarra.it_erro := None |}.
Proof. vm_compute; reflexivity. Qed.

(** The test is strict: with a tolerance of 0 (set from [-1.0]) the same
    code with the other [on] is at distance 0, which is not below 0, and no
    callback is called. *)
Example tolerancia_zero_nada_passa :
  let l0 := ListenerGuitarra.range_setter (registrados [anota 0])
              (Num (PyFloat (float_of_Z (-1)))) in
  let l1 := depois_de l0 (linha "1;0") [] in
  ListenerGuitarra._range l1 = PyInt 0 /\
  ListenerGuitarra.it_chamadas (ListenerGuitarra._loop_corpo l1 (linha "1;1") []) = [] /\
  ListenerGuitarra._nota_buffer
    (ListenerGuitarra.it_listener (ListenerGuitarra._loop_corpo l1 (linha "1;1") []))
  = Some (nota 1 true).
Proof. repeat split; vm_compute; reflexivity. Qed.



(** Witness of C3: ["1;0"] then ["9;1"], at distance 8 from each other. *)
Lemma no_edge_witness :
  let l := depois_de (registrados [anota 0]) (linha "1;0") [] in
  let it := ListenerGuitarra._loop_corpo l (linha "9;1") [] in
  ListenerGuitarra.it_chamadas it = [] /\
  ListenerGuitarra.it_mundo it = [] /\
  ListenerGuitarra.it_erro it = None /\
  ListenerGuitarra._nota_buffer (ListenerGuitarra.it_listener it) = Some (nota 9 true) /\
  ListenerGuitarra._input_port (ListenerGuitarra.it_listener it)
  = ListenerGuitarra._input_port l /\
  ListenerGuitarra._callbacks (ListenerGuitarra.it_listener it)
  = ListenerGuitarra._callbacks l /\
  ListenerGuitarra._range (ListenerGuitarra.it_listener it) = ListenerGuitarra._range l /\
  ListenerGuitarra._running (ListenerGuitarra.it_listener it)
  = ListenerGuitarra._running l /\
  ListenerGuitarra._thread (ListenerGuitarra.it_listener it) = ListenerGuitarra._thread l.
Proof.
  apply (no_edge_no_dispatch
           (depois_de (registrados [anota 0]) (linha "1;0") [])
           (nota 1 false) (nota 9 true) (linha "9;1") []).
  - vm_compute; reflexivity.
  - vm_compute; reflexivity.
  - right. vm_compute; reflexivity.
Defined.

(** C4, on the code. The line of bytes C2 B2 3B 31 0A decodes to a first
    field made of U+00B2, for which [isnumeric()] holds and [float()]
    raises ValueError. The turn of the loop that reads it raises, and the
    thread of a listener started on the port ends, with the listener still
    marked as running. *)
Theorem superscript_two_line_ends_the_polling_thread :
  ListenerGuitarra.forma_valida linha_ao_quadrado = true /\
  ListenerGuitarra.decodifica linha_ao_quadrado = ListenerGuitarra.Falha ValueError /\
  (forall (l : ListenerGuitarra.t Registro) w,
     ListenerGuitarra.it_erro (ListenerGuitarra._loop_corpo l linha_ao_quadrado w)
     = Some ValueError) /\
  let s3 := ListenerGuitarra.executa_todas sistema
              [ListenerGuitarra.AtribuiInputPort 0; ListenerGuitarra.ChamaStart;
               ListenerGuitarra.ChegaLinha 0 linha_ao_quadrado] in
  let s4 := ListenerGuitarra.executa s3 (ListenerGuitarra.Turno 0) in
  vivas (ListenerGuitarra.amb s3) = {[0]} /\
  vivas (ListenerGuitarra.amb s4) = ∅ /\
  ListenerGuitarra._running (ListenerGuitarra.ouvinte s4) = true.
Proof.
  split; [vm_compute; reflexivity|]. split; [vm_compute; reflexivity|].
  split; [intros l w; reflexivity|].
  repeat split; vm_compute; reflexivity.
Qed.

(** Witness of C6: the line ["1;2"], whose second field is not a bit. *)
Lemma noise_line_witness :
  let l := depois_de (registrados [anota 0]) (linha "1;0") [] in
  let it := ListenerGuitarra._loop_corpo l (linha "1;2") [] in
  ListenerGuitarra.it_listener it = l /\
  ListenerGuitarra._nota_buffer (ListenerGuitarra.it_listener it)
  = ListenerGuitarra._nota_buffer l /\
  ListenerGuitarra.it_chamadas it = [] /\
  ListenerGuitarra.it_mundo it = [].
Proof.
  apply (noise_line_leaves_buffer
           (depois_de (registrados [anota 0]) (linha "1;0") []) (linha "1;2") []).
  left. vm_compute; reflexivity.
Defined.



(** Witness of C7: 0.75 is stored as 0.5. *)
Lemma range_setter_witness :
  ListenerGuitarra._range
    (ListenerGuitarra.range_setter (W := Registro) ListenerGuitarra.novo
       (Num (PyFloat (float_pow2 3 (-2)))))
  = PyFloat meio.
Proof.
  pose proof (range_setter_clamps_floats (W := Registro) ListenerGuitarra.novo
                (Num (PyFloat (float_pow2 3 (-2))))) as H.
  simpl in H. destruct H as (H & _). apply H. vm_compute; reflexivity.
Defined.

(** C7 fails as stated. The int 1 is above 0.5 and is not pinned to 0.5:
    the setter ignores it and the tolerance stays at 0.25; and the float
    NaN is stored as it is, outside [0, 0.5]. *)
Lemma int_above_half_is_ignored_by_range_setter :
  let l := ListenerGuitarra.range_setter (W := Registro) ListenerGuitarra.novo
             (Num (PyFloat um_quarto)) in
  ListenerGuitarra._range l = PyFloat um_quarto /\
  float_lt_int meio 1 = true /\
  ListenerGuitarra._range (ListenerGuitarra.range_setter l (Num (PyInt 1)))
  = PyFloat um_quarto /\
  PyFloat um_quarto <> PyFloat meio /\
  ListenerGuitarra._range (ListenerGuitarra.range_setter l (Num (PyFloat nan)))
  = PyFloat nan /\
  de_zero_a_meio (PyFloat nan) = false.
Proof.
  repeat split; try (vm_compute; reflexivity); vm_compute; discriminate.
Qed.

Lemma interface_nova_init :
  InterfaceGuitarra.__init__ 0 aceita (Num (PyFloat meio)) = Retorna interface_nova.
Proof. vm_compute; reflexivity. Qed.

(** Witness of C5, and its instance: with the bindings nota1 to nota5 at
    1.0 to 5.0 and 0.5 for [_range], the raw note [(3.0, on)] is handed to
    the user's callback as nota3, on, and as nothing else. *)
Lemma resolver_five_notes_witness :
  InterfaceGuitarra.atribui_notas interface_nova cinco_notas
  = (configurada cinco_notas, None) /\
  InterfaceGuitarra._callback (nota 3 true) (mundo_de (configurada cinco_notas))
  = ({| InterfaceGuitarra.self := configurada cinco_notas;
        InterfaceGuitarra.usuario := tt;
        InterfaceGuitarra.entregues :=
          [{| NotaProcessada.nome := "nota3"; NotaProcessada.on := true |}] |}, None).
Proof.
  destruct (resolver_emits_bindings_within_range (U := unit)
              0 aceita (Num (PyFloat meio)) interface_nova cinco_notas
              [1; 2; 3; 4; 5]%Z (nota 3 true) tt [])
    as (i1 & Hcfg & Hr & Hcb).
  - vm_compute; reflexivity.
  - unfold cinco_notas.
    repeat (apply List.Forall2_cons;
            [split; [vm_compute; reflexivity|];
             split; [vm_compute; reflexivity|];
             split; [vm_compute; reflexivity|];
             eexists; vm_compute; reflexivity|]).
    apply List.Forall2_nil.
  - apply (bool_decide_unpack _). vm_compute. exact I.
  - intros np u'. reflexivity.
  - assert (Hi : i1 = configurada cinco_notas).
    { unfold configurada. rewrite Hcfg. reflexivity. }
    subst i1. split; [exact Hcfg|]. exact Hcb.
Defined.

(** C5 fails as stated. With the one binding nota1 at 1.5 and 0.5 for
    [_range], the raw note [(2.0, on)] is within 0.5 of the bound code, and
    [_callback] hands nothing to the user's callback: it compares with
    [int(1.5)], which is 1. *)
Lemma fractional_binding_is_not_resolved :
  interface nota_e_meia = (Some (configurada nota_e_meia), None) /\
  InterfaceGuitarra._range (configurada nota_e_meia) = meio /\
  fle (fabs (fsub (codigo (nota 2 true)) um_e_meio)) meio = true /\
  InterfaceGuitarra._valores_dicionario (configurada nota_e_meia) = [1%Z] /\
  InterfaceGuitarra._callback (nota 2 true) (mundo_de (configurada nota_e_meia))
  = (mundo_de (configurada nota_e_meia), None).
Proof. repeat split; vm_compute; reflexivity. Qed.

(** The second [start] of an interface closes its own port: the port given
    again is the one the listener holds, and the setter closes the one
    held. *)
Lemma second_start_closes_the_port :
  let s0 := InterfaceGuitarra.nova (configurada cinco_notas)
              (ambiente_inicial uma_porta) tt in
  is_open (porta (ListenerGuitarra.amb (InterfaceGuitarra.start_vezes 1 s0)) 0) = true /\
  is_open (porta (ListenerGuitarra.amb (InterfaceGuitarra.start_vezes 2 s0)) 0) = false.
Proof. split; vm_compute; reflexivity. Qed.



(** Witness of C10: the one binding nota1 at 1.5, and the raw note
    [(1.0, on)]. *)
Lemma fractional_code_witness :
  InterfaceGuitarra.atribui_notas interface_nova nota_e_meia
  = (configurada nota_e_meia, None) /\
  InterfaceGuitarra._callback (nota 1 true) (mundo_de (configurada nota_e_meia))
  = (mundo_de (configurada nota_e_meia), Some (KeyError 1)).
Proof.
  destruct (fractional_code_raises_KeyError (U := unit)
              0 aceita (Num (PyFloat meio)) interface_nova nota_e_meia
              "nota1"%string (PyFloat um_e_meio) 1%Z)
    as (i1 & vs1 & vs2 & Hcfg & Hvs & Hcb).
  - vm_compute; reflexivity.
  - apply elem_of_cons. left. reflexivity.
  - vm_compute; reflexivity.
  - apply Forall_cons. split; [|apply List.Forall_nil]. eexists. vm_compute; reflexivity.
  - apply Forall_cons. split; [|apply List.Forall_nil]. vm_compute; reflexivity.
  - assert (Hi : i1 = configurada nota_e_meia).
    { unfold configurada. rewrite Hcfg. reflexivity. }
    subst i1. split; [exact Hcfg|].
    destruct vs1 as [|x vs1].
    + destruct (Hcb (nota 1 true) tt [] (float_of_Z 1)) as (_ & Hkey & _).
      * vm_compute; reflexivity.
      * vm_compute; reflexivity.
      * apply (Hkey tt []). reflexivity.
    + vm_compute in Hvs. destruct vs1; discriminate Hvs.
Defined.

(** C10 fails as stated. With nota1 bound to 1.0 and nota2 to 1.5, the
    configuration succeeds and the raw note [(1.0, on)] is within 0.5 of
    [int(1.5)], yet [_callback] raises nothing: the truncated value 1 is
    itself a bound code, and nota1 is handed over twice. *)
Lemma truncated_code_that_is_bound_raises_nothing :
  interface nota_e_nota_e_meia = (Some (configurada nota_e_nota_e_meia), None) /\
  int (PyFloat um_e_meio) = Retorna 1%Z /\
  num_eq_int (PyFloat um_e_meio) 1 = false /\
  InterfaceGuitarra._valores_dicionario (configurada nota_e_nota_e_meia) = [1%Z; 1%Z] /\
  fle (fabs (fsub (codigo (nota 1 true)) (float_of_Z 1)))
    (InterfaceGuitarra._range (configurada nota_e_nota_e_meia)) = true /\
  InterfaceGuitarra._callback (nota 1 true) (mundo_de (configurada nota_e_nota_e_meia))
  = ({| InterfaceGuitarra.self := configurada nota_e_nota_e_meia;
        InterfaceGuitarra.usuario := tt;
        InterfaceGuitarra.entregues :=
          [{| NotaProcessada.nome := "nota1"; NotaProcessada.on := true |};
           {| NotaProcessada.nome := "nota1"; NotaProcessada.on := true |}] |}, None).
Proof. repeat split; vm_compute; reflexivity. Qed.

End Concreto.

(** * More of the code *)

(** ** The loop on a stream of lines *)

Section Fluxo.
Context `{UCD : UnicodeData} {W : Type}.
Import ListenerGuitarra.

Implicit Types (l : ListenerGuitarra.t W) (w : W) (linhas : list (list byte)).

Lemma _loop_leituras_app l linhas1 linhas2 w :
  _loop_leituras l (linhas1 ++ linhas2) w
  = let it := _loop_leituras l linhas1 w in
    match it_erro it with
    | Some _ => it
    | None =>
        let it' := _loop_leituras (it_listener it) linhas2 (it_mundo it) in
        {| it_listener := it_listener it'; it_mundo := it_mundo it';
           it_chamadas := it_chamadas it ++ it_chamadas it';
           it_erro := it_erro it' |}
    end.
Proof.
  revert l w. induction linhas1 as [|x linhas1 IH]; intros l w; simpl.
  - by destruct (_loop_leituras l linhas2 w).
  - destruct (it_erro (_loop_corpo l x w)) eqn:He; simpl; [by rewrite He|].
    rewrite IH. simpl.
    set (it1 := _loop_leituras _ linhas1 _).
    destruct it1 as [l1 w1 ch1 [e1|]]; simpl; [done|].
    by rewrite app_assoc.
Qed.

Lemma _loop_corpo_descartada l x w :
  descartada x = true ->
  _loop_corpo l x w
  = {| it_listener := l; it_mundo := w; it_chamadas := []; it_erro := None |}.
Proof.
  unfold descartada, _loop_corpo. by destruct (decodifica x).
Qed.

Lemma _loop_leituras_inv l linhas w :
  let it := _loop_leituras l linhas w in
  _input_port (it_listener it) = _input_port l /\
  _callbacks (it_listener it) = _callbacks l /\
  _range (it_listener it) = _range l /\
  _running (it_listener it) = _running l /\
  _thread (it_listener it) = _thread l.
Proof.
  revert l w. induction linhas as [|x linhas IH]; intros l w; simpl; [done|].
  assert (Hc : let it := _loop_corpo l x w in
               _input_port (it_listener it) = _input_port l /\
               _callbacks (it_listener it) = _callbacks l /\
               _range (it_listener it) = _range l /\
               _running (it_listener it) = _running l /\
               _thread (it_listener it) = _thread l).
  { unfold _loop_corpo. destruct (decodifica x) as [|e|ret]; try done.
    destruct (_nota_buffer l) as [b|]; [|done].
    destruct (inverteu l b ret); [|done].
    by destruct (despacha _ _ _ _) as [[w1 ch] [e|]]. }
  destruct (it_erro (_loop_corpo l x w)); [exact Hc|].
  simpl in *. destruct Hc as (H1 & H2 & H3 & H4 & H5).
  destruct (IH (it_listener (_loop_corpo l x w)) (it_mundo (_loop_corpo l x w)))
    as (I1 & I2 & I3 & I4 & I5).
  simpl. by rewrite I1, I2, I3, I4, I5.
Qed.

(** X1. The lines that the loop drops are invisible: the loop leaves the
    same listener and the same world, makes the same calls and ends on the
    same exception, on a stream of lines and on the stream without its
    dropped lines. *)
Theorem dropped_lines_are_invisible l linhas w :
  _loop_leituras l linhas w
  = _loop_leituras l (List.filter (fun x => negb (descartada x)) linhas) w.
Proof.
  revert l w. induction linhas as [|x linhas IH]; intros l w; [done|].
  simpl. destruct (descartada x) eqn:Hx; simpl.
  - rewrite (_loop_corpo_descartada _ _ _ Hx). simpl. rewrite <- IH.
    by destruct (_loop_leituras l linhas w).
  - destruct (it_erro (_loop_corpo l x w)); [done|]. by rewrite IH.
Qed.

Lemma _loop_corpo_de_novo l x w :
  it_erro (_loop_corpo l x w) = None ->
  _loop_corpo (it_listener (_loop_corpo l x w)) x (it_mundo (_loop_corpo l x w))
  = {| it_listener := it_listener (_loop_corpo l x w);
       it_mundo := it_mundo (_loop_corpo l x w);
       it_chamadas := []; it_erro := None |}.
Proof.
  destruct (decodifica x) as [|e|ret] eqn:Hd.
  - intros _. unfold _loop_corpo. by rewrite Hd.
  - unfold _loop_corpo. by rewrite Hd.
  - rewrite (_loop_corpo_amostra l x w ret Hd).
    destruct (match _nota_buffer l with Some b => _ | None => _ end)
      as [[w2 ch] [e|]]; [done|].
    intros _. simpl. rewrite (_loop_corpo_amostra _ x w2 ret Hd). simpl.
    unfold inverteu. rewrite eqb_reflx. simpl. by rewrite andb_false_r.
Qed.

(** X2. A line read twice in a row counts once: the second reading makes
    no call and changes nothing, so that the loop behaves on a stream with
    a line repeated as on the stream with the line once. *)
Theorem repeated_line_counts_once l linhas1 x linhas2 w :
  _loop_leituras l (linhas1 ++ x :: x :: linhas2) w
  = _loop_leituras l (linhas1 ++ x :: linhas2) w.
Proof.
  rewrite !_loop_leituras_app. simpl.
  destruct (it_erro (_loop_leituras l linhas1 w)); [done|].
  set (l1 := it_listener (_loop_leituras l linhas1 w)).
  set (w1 := it_mundo (_loop_leituras l linhas1 w)).
  destruct (it_erro (_loop_corpo l1 x w1)) eqn:He; [done|].
  rewrite (_loop_corpo_de_novo l1 x w1 He). simpl.
  by destruct (_loop_leituras _ linhas2 _).
Qed.

Lemma _loop_corpo_buffer l x w :
  it_erro (_loop_corpo l x w) = None ->
  _nota_buffer (it_listener (_loop_corpo l x w))
  = match decodifica x with
    | Amostra ret => Some ret
    | _ => _nota_buffer l
    end.
Proof.
  destruct (decodifica x) as [|e|ret] eqn:Hd.
  - unfold _loop_corpo. by rewrite Hd.
  - unfold _loop_corpo. by rewrite Hd.
  - rewrite (_loop_corpo_amostra l x w ret Hd).
    by destruct (match _nota_buffer l with Some b => _ | None => _ end)
      as [[w2 ch] [e|]].
Qed.

(** X3. The loop touches nothing of the listener but the buffer: the port,
    the callbacks, the tolerance, the running flag and the thread are as
    they were after any stream of lines; and when no exception ended the
    loop, the buffer holds the note of the last line that gave one (what
    it held before, when no line gave one). *)
Theorem loop_only_moves_the_buffer l linhas w :
  let it := _loop_leituras l linhas w in
  _input_port (it_listener it) = _input_port l /\
  _callbacks (it_listener it) = _callbacks l /\
  _range (it_listener it) = _range l /\
  _running (it_listener it) = _running l /\
  _thread (it_listener it) = _thread l /\
  (it_erro it = None ->
   _nota_buffer (it_listener it) = ultima_amostra (_nota_buffer l) linhas).
Proof.
  intros it. destruct (_loop_leituras_inv l linhas w) as (H1 & H2 & H3 & H4 & H5).
  do 5 (split; [done|]). subst it. clear.
  revert l w. induction linhas as [|x linhas IH]; intros l w; simpl; [done|].
  destruct (it_erro (_loop_corpo l x w)) eqn:He; [by rewrite He|].
  simpl. intros Hn. rewrite (IH _ _ Hn), (_loop_corpo_buffer l x w He).
  by destruct (decodifica x).
Qed.

Lemma _loop_corpo_chamadas l x w :
  Forall (fun c => fst c < length (_callbacks l)
                   /\ decodifica x = Amostra (snd c)
                   /\ exists b, _nota_buffer l = Some b)
    (it_chamadas (_loop_corpo l x w)).
Proof.
  destruct (decodifica x) as [|e|ret] eqn:Hd.
  - unfold _loop_corpo. rewrite Hd. constructor.
  - unfold _loop_corpo. rewrite Hd. constructor.
  - rewrite (_loop_corpo_amostra l x w ret Hd).
    destruct (_nota_buffer l) as [b|]; [|constructor].
    destruct (inverteu l b ret); [|constructor].
    destruct (despacha_spec (_callbacks l) 0 ret w) as (k & Hk & _ & Hch & _).
    destruct (despacha (_callbacks l) 0 ret w) as [[w1 ch] e]. simpl in Hch. subst ch.
    assert (Hall : Forall (fun c : nat * NotaGuitarra =>
                     fst c < length (_callbacks l) /\ Amostra ret = Amostra (snd c)
                     /\ exists b0, Some b = Some b0)
                     (map (fun j => (j, ret)) (seq 0 k))).
    { apply Forall_forall. intros c Hc. apply list_elem_of_In in Hc.
      apply in_map_iff in Hc as (j & <- & Hj). apply in_seq in Hj. simpl.
      split; [lia|]. split; [done|]. by exists b. }
    by destruct e.
Qed.

Lemma amostras_elem x linhas ret :
  x ∈ linhas -> decodifica x = Amostra ret -> ret ∈ amostras linhas.
Proof.
  induction linhas as [|y linhas IH]; [by intros H%elem_of_nil|].
  intros [->|Hin]%elem_of_cons Hd; simpl.
  - rewrite Hd. apply elem_of_cons. by left.
  - destruct (decodifica y); auto. apply elem_of_cons. right. auto.
Qed.

Lemma _loop_leituras_chamadas l linhas w :
  Forall (fun c => fst c < length (_callbacks l) /\ snd c ∈ amostras linhas)
    (it_chamadas (_loop_leituras l linhas w)).
Proof.
  revert l w. induction linhas as [|x linhas IH]; intros l w; simpl; [constructor|].
  assert (H1 : Forall (fun c => fst c < length (_callbacks l)
                                /\ snd c ∈ amostras (x :: linhas))
                 (it_chamadas (_loop_corpo l x w))).
  { eapply Forall_impl; [apply _loop_corpo_chamadas|].
    intros c (Hc & Hd & _). split; [done|]. simpl. rewrite Hd.
    apply elem_of_cons. by left. }
  destruct (it_erro (_loop_corpo l x w)) eqn:He; [exact H1|].
  simpl. apply Forall_app. split; [exact H1|].
  eapply Forall_impl; [apply IH|].
  intros c [Hc Hin].
  assert (Hcb : _callbacks (it_listener (_loop_corpo l x w)) = _callbacks l).
  { destruct (_loop_leituras_inv l [x] w) as (_ & H & _). simpl in H.
    by rewrite He in H. }
  rewrite Hcb in Hc. split; [done|]. simpl.
  destruct (decodifica x); auto. apply elem_of_cons. by right.
Qed.

Lemma _loop_corpo_conta l x w :
  length (it_chamadas (_loop_corpo l x w))
  <= match decodifica x, _nota_buffer l with
     | Amostra _, Some _ => length (_callbacks l)
     | _, _ => 0
     end.
Proof.
  destruct (decodifica x) as [|e|ret] eqn:Hd.
  - unfold _loop_corpo. by rewrite Hd.
  - unfold _loop_corpo. by rewrite Hd.
  - rewrite (_loop_corpo_amostra l x w ret Hd).
    destruct (_nota_buffer l) as [b|]; [|done].
    destruct (inverteu l b ret); [|simpl; lia].
    destruct (despacha_spec (_callbacks l) 0 ret w) as (k & Hk & _ & Hch & _).
    destruct (despacha (_callbacks l) 0 ret w) as [[w1 ch] e]. simpl in Hch. subst ch.
    assert (length (map (fun j => (j, ret)) (seq 0 k)) <= length (_callbacks l))
      by (by rewrite length_map, length_seq).
    by destruct e.
Qed.

Lemma _loop_leituras_conta l linhas w :
  length (it_chamadas (_loop_leituras l linhas w))
  <= length (_callbacks l)
     * match _nota_buffer l with
       | Some _ => length (amostras linhas)
       | None => length (amostras linhas) - 1
       end.
Proof.
  revert l w. induction linhas as [|x linhas IH]; intros l w; simpl; [lia|].
  pose proof (_loop_corpo_conta l x w) as Hc.
  destruct (it_erro (_loop_corpo l x w)) eqn:He.
  - destruct (decodifica x) as [|e'|ret] eqn:Hd.
    + unfold _loop_corpo in He. by rewrite Hd in He.
    + lia.
    + destruct (_nota_buffer l); simpl; [nia|lia].
  - simpl. rewrite length_app.
    specialize (IH (it_listener (_loop_corpo l x w)) (it_mundo (_loop_corpo l x w))).
    assert (Hcb : _callbacks (it_listener (_loop_corpo l x w)) = _callbacks l).
    { destruct (_loop_leituras_inv l [x] w) as (_ & H & _). simpl in H.
      by rewrite He in H. }
    rewrite Hcb, (_loop_corpo_buffer l x w He) in IH.
    destruct (decodifica x) as [|e'|ret] eqn:Hd; simpl in *.
    + destruct (_nota_buffer l); lia.
    + destruct (_nota_buffer l); lia.
    + destruct (_nota_buffer l); simpl in *; nia.
Qed.

(** X4. Nothing is dispatched that was not read: every call made by the
    loop is made to a registered callback, with the note of one of the
    lines of the stream; and a listener that starts with an empty buffer
    calls each callback at most once per note read after the first. *)
Theorem calls_come_from_the_lines_read l linhas w :
  let it := _loop_leituras l linhas w in
  Forall (fun c => fst c < length (_callbacks l) /\ snd c ∈ amostras linhas)
    (it_chamadas it) /\
  (_nota_buffer l = None ->
   length (it_chamadas it) <= length (_callbacks l) * (length (amostras linhas) - 1)).
Proof.
  intros it. split; [apply _loop_leituras_chamadas|].
  intros Hb. pose proof (_loop_leituras_conta l linhas w) as H. by rewrite Hb in H.
Qed.

Lemma turnos_thread_morta n th (s : Estado W) :
  th ∉ vivas (amb s) -> turnos n th s = (s, []).
Proof.
  intros Hth. induction n as [|n IH]; simpl; [done|].
  unfold _loop. rewrite bool_decide_eq_false_2 by done. simpl. by rewrite IH.
Qed.

(** X5. The turns of the polling thread are the loop on the lines waiting
    in the port. For a live thread of a running listener whose port is open
    and holds some lines, as many turns as there are lines leave the
    listener and the world that the loop on these lines leaves, and make
    its calls; the thread is alive afterwards exactly when no exception
    left the loop, and then every line has been read. *)
Theorem thread_turns_run_the_loop th (s : Estado W) p linhas :
  th ∈ vivas (amb s) ->
  _running (ouvinte s) = true ->
  _input_port (ouvinte s) = Some p ->
  is_open (porta (amb s) p) = true ->
  rx (porta (amb s) p) = linhas ->
  let it := _loop_leituras (ouvinte s) linhas (mundo s) in
  let s' := fst (turnos (length linhas) th s) in
  ouvinte s' = it_listener it /\
  mundo s' = it_mundo it /\
  snd (turnos (length linhas) th s) = it_chamadas it /\
  (th ∈ vivas (amb s') <-> it_erro it = None) /\
  (it_erro it = None -> rx (porta (amb s') p) = []).
Proof.
  revert s. induction linhas as [|x linhas IH]; intros s Hth Hr Hp Ho Hrx.
  - simpl. split; [done|]. split; [done|]. split; [done|]. split; [done|]. done.
  - cbn [length turnos _loop_leituras].
    unfold _loop at 1 2 3 4 5.
    rewrite bool_decide_eq_true_2 by done. rewrite Hr, Hp, Ho, Hrx. cbn [negb].
    set (a1 := com_portas (amb s) (<[p:=com_rx (porta (amb s) p) linhas]> (portas (amb s)))).
    set (it0 := _loop_corpo (ouvinte s) x (mundo s)).
    assert (Hp1 : porta a1 p = com_rx (porta (amb s) p) linhas).
    { unfold porta at 1. subst a1. simpl. by rewrite lookup_insert_eq. }
    destruct (it_erro it0) as [e|] eqn:He.
    + set (s1 := fim_da_thread th {| ouvinte := it_listener it0; amb := a1;
                                     mundo := it_mundo it0 |}).
      assert (Hmorta : th ∉ vivas (amb s1)).
      { subst s1. simpl. intros [_ Hn]%elem_of_difference. apply Hn.
        by apply elem_of_singleton. }
      rewrite (turnos_thread_morta _ th s1 Hmorta). simpl. rewrite app_nil_r.
      split; [done|]. split; [done|]. split; [done|].
      split; [|by rewrite He]. rewrite He. split; [intros H; by destruct Hmorta|done].
    + set (s1 := {| ouvinte := it_listener it0; amb := a1; mundo := it_mundo it0 |}).
      destruct (_loop_leituras_inv (ouvinte s) [x] (mundo s)) as (I1 & _ & _ & I4 & _).
      simpl in I1, I4. fold it0 in I1, I4. rewrite He in I1, I4. simpl in I1, I4.
      destruct (IH s1) as (H1 & H2 & H3 & H4 & H5).
      * subst s1 a1. simpl. done.
      * subst s1. simpl. by rewrite I4.
      * subst s1. simpl. by rewrite I1.
      * subst s1. simpl. rewrite Hp1. done.
      * subst s1. simpl. rewrite Hp1. done.
      * destruct (turnos (length linhas) th s1) as [s2 ch2]. simpl in *.
        split; [done|]. split; [done|]. split; [by rewrite H3|].
        split; [done|]. done.
Qed.

End Fluxo.

(** ** Tolerance and edges *)

Section Tolerancia.
Context `{UCD : UnicodeData} {W : Type}.
Import ListenerGuitarra.

Implicit Types (l : ListenerGuitarra.t W) (w : W) (linhas : list (list byte)).

Lemma fabs_nunca_abaixo_de_zero x : float_lt_int (fabs x) 0 = false.
Proof.
  unfold float_lt_int, fabs, SFabs, float_cmp_int.
  destruct x as [s|s| |s m e]; try done.
  unfold cond_Zopp. destruct (0 <=? e)%Z eqn:He.
  - apply Z.leb_le in He.
    assert (0 < 2 ^ e)%Z by (apply Z.pow_pos_nonneg; lia).
    destruct (Z.compare_spec (Z.pos m * 2 ^ e) 0); try done. nia.
  - rewrite Z.mul_0_l. done.
Qed.

Lemma fabs_nunca_abaixo x v :
  flt (S754_zero false) v = false -> flt (fabs x) v = false.
Proof.
  unfold flt, SFltb.
  destruct v as [sv|sv| |sv mv ev]; destruct x as [s|s| |s m e]; simpl; try done;
    by destruct sv.
Qed.

Lemma range_setter_sem_tolerancia l v :
  flt (S754_zero false) v = false ->
  forall x, float_lt_num (fabs x) (_range (range_setter l (Num (PyFloat v)))) = false.
Proof.
  intros Hv x. unfold range_setter. simpl.
  destruct (flt meio v) eqn:Hgt.
  - exfalso. revert Hv Hgt. unfold flt, SFltb, meio.
    destruct v as [sv|sv| |sv mv ev]; try done; by destruct sv.
  - destruct (float_lt_int v 0); simpl.
    + apply fabs_nunca_abaixo_de_zero.
    + by apply fabs_nunca_abaixo.
Qed.

Lemma _loop_leituras_sem_tolerancia l linhas w :
  (forall x, float_lt_num (fabs x) (_range l) = false) ->
  it_chamadas (_loop_leituras l linhas w) = [] /\
  it_mundo (_loop_leituras l linhas w) = w.
Proof.
  revert l w. induction linhas as [|x linhas IH]; intros l w Hr; simpl; [done|].
  assert (Hc : it_chamadas (_loop_corpo l x w) = [] /\ it_mundo (_loop_corpo l x w) = w
               /\ _range (it_listener (_loop_corpo l x w)) = _range l).
  { unfold _loop_corpo. destruct (decodifica x) as [|e|ret]; try done.
    destruct (_nota_buffer l) as [b|]; [|done].
    unfold inverteu. by rewrite Hr. }
  destruct Hc as (Hc1 & Hc2 & Hc3).
  destruct (it_erro (_loop_corpo l x w)); [done|]. simpl.
  destruct (IH (it_listener (_loop_corpo l x w)) (it_mundo (_loop_corpo l x w)))
    as [I1 I2]; [by rewrite Hc3|].
  by rewrite Hc1, I1, I2, Hc2.
Qed.

(** X6. A tolerance that is not positive silences the listener. After the
    tolerance is set from a float that is not above zero (a negative one,
    which is stored as 0, a zero, or NaN), no line ever makes the loop call
    a callback, since no distance is below such a tolerance. *)
Theorem nonpositive_tolerance_silences_the_listener l v linhas w :
  flt (S754_zero false) v = false ->
  let it := _loop_leituras (range_setter l (Num (PyFloat v))) linhas w in
  it_chamadas it = [] /\ it_mundo it = w.
Proof.
  intros Hv it. apply _loop_leituras_sem_tolerancia.
  by apply range_setter_sem_tolerancia.
Qed.

Lemma fsub_diag x : finito x = true -> fabs (fsub x x) = S754_zero false.
Proof.
  destruct x as [s|s| |s m e]; try done; intros _.
  - by destruct s.
  - unfold fsub, SFsub. by rewrite Z.sub_diag.
Qed.

Lemma despacha_todos_retornam cs i ret w :
  Forall (fun c : Callable NotaGuitarra W => forall x w', snd (c x w') = None) cs ->
  snd (despacha cs i ret w) = None.
Proof.
  intros H. revert i w. induction H as [|c cs Hc H IH]; intros i w; simpl; [done|].
  specialize (Hc ret w). destruct (c ret w) as [w1 e]. simpl in Hc. subst e.
  specialize (IH (S i) w1). by destruct (despacha cs (S i) ret w1) as [[w2 ch] e].
Qed.

(** X7. A press or a release of the very code just read is always
    reported when the tolerance is positive. If the note read has the code
    of the buffered one, a code that is a finite float, and the other [on],
    and if no callback raises, every callback is called once with the note,
    in the order of registration, and the note becomes the buffered one. *)
Theorem toggle_of_the_same_code_is_reported l prev cur linha_bytes w :
  _nota_buffer l = Some prev ->
  decodifica linha_bytes = Amostra cur ->
  codigo cur = codigo prev ->
  finito (codigo prev) = true ->
  on prev <> on cur ->
  float_lt_num (S754_zero false) (_range l) = true ->
  Forall (fun c : Callable NotaGuitarra W => forall x w', snd (c x w') = None)
    (_callbacks l) ->
  _loop_corpo l linha_bytes w
  = {| it_listener := com_nota_buffer l (Some cur);
       it_mundo := mundo_apos (_callbacks l) cur w;
       it_chamadas := map (fun j => (j, cur)) (seq 0 (length (_callbacks l)));
       it_erro := None |}.
Proof.
  intros Hb Hd Hc Hf Hon Hr Hcs.
  rewrite (_loop_corpo_amostra l linha_bytes w cur Hd), Hb.
  assert (Hinv : inverteu l prev cur = true).
  { unfold inverteu. rewrite Hc, (fsub_diag _ Hf), Hr. simpl.
    destruct (on prev), (on cur); done. }
  rewrite Hinv.
  by rewrite (despacha_sem_excecao _ _ _ _ (despacha_todos_retornam _ 0 cur w Hcs)).
Qed.

End Tolerancia.

(** ** The port and the thread *)

Section Porta.
Context `{UCD : UnicodeData} {W : Type}.
Import ListenerGuitarra.

Implicit Types (l : ListenerGuitarra.t W) (w : W) (a : Ambiente).
Implicit Types (s : ListenerGuitarra.Estado W).

Lemma porta_print a msg q : porta (print a msg) q = porta a q.
Proof. done. Qed.

Lemma porta_close_eq a p : porta (Serial_close p a) p = com_aberta (porta a p) false.
Proof. unfold porta at 1, Serial_close. simpl. by rewrite lookup_insert_eq. Qed.

Lemma porta_close_ne a p q : p <> q -> porta (Serial_close p a) q = porta a q.
Proof. intros H. unfold porta, Serial_close. simpl. by rewrite lookup_insert_ne. Qed.

Lemma porta_open a a1 p q :
  Serial_open p a = Retorna a1 ->
  porta a1 q = if bool_decide (p = q) then com_aberta (porta a p) true else porta a q.
Proof.
  unfold Serial_open. destruct (abre (porta a p)); [|done]. intros [= <-].
  unfold porta at 1. simpl. case_bool_decide as Hpq.
  - subst q. by rewrite lookup_insert_eq.
  - by rewrite lookup_insert_ne.
Qed.

(** X8. What the setter of [input_port] leaves. When the port given is
    closed and cannot be opened, SerialException is raised and nothing has
    changed: the listener keeps the port it had, still open if it was. When
    the setter returns, the listener holds the port given, the port it held
    before is closed, every other port is as it was, and the port given is
    open exactly when it is not the port held before. *)
Theorem input_port_setter_swaps_the_port l port a :
  let '(l', a', e) := input_port_setter l port a in
  match e with
  | Some ex =>
      ex = SerialException /\ l' = l /\ a' = a /\
      is_open (porta a port) = false /\ abre (porta a port) = false
  | None =>
      l' = com_input_port l (Some port) /\
      vivas a' = vivas a /\
      (forall anterior, _input_port l = Some anterior ->
         is_open (porta a' anterior) = false) /\
      is_open (porta a' port) = negb (bool_decide (_input_port l = Some port)) /\
      (forall q, q <> port -> _input_port l <> Some q -> porta a' q = porta a q)
  end.
Proof.
  unfold input_port_setter.
  destruct (is_open (porta a port)) eqn:Ho.
  - (* already open *)
    split; [done|]. split; [by destruct (_input_port l)|].
    destruct (_input_port l) as [anterior|] eqn:Hp; simpl.
    + split; [intros ? [= <-]; by rewrite porta_print, porta_close_eq|].
      split.
      * rewrite porta_print. case_bool_decide as Heq.
        -- injection Heq as ->. by rewrite porta_close_eq.
        -- rewrite porta_close_ne by congruence. by rewrite Ho.
      * intros q Hq Hne. rewrite porta_print, porta_close_ne; [done|congruence].
    + split; [done|]. split; [by rewrite porta_print, Ho|]. done.
  - destruct (Serial_open port a) as [a1|ex] eqn:Hopen.
    + pose proof (porta_open a a1 port) as Hq.
      specialize (Hq port Hopen) as Hport. rewrite bool_decide_eq_true_2 in Hport by done.
      assert (Hv : vivas a1 = vivas a).
      { unfold Serial_open in Hopen. destruct (abre _); [|done]. by injection Hopen as <-. }
      split; [done|]. split; [by destruct (_input_port l)|].
      destruct (_input_port l) as [anterior|] eqn:Hp; simpl.
      * split; [intros ? [= <-]; by rewrite porta_print, porta_close_eq|].
        split.
        -- rewrite porta_print. case_bool_decide as Heq.
           ++ injection Heq as ->. by rewrite porta_close_eq.
           ++ rewrite porta_close_ne by congruence. by rewrite Hport.
        -- intros q Hq' Hne. rewrite porta_print, porta_close_ne by congruence.
           rewrite (porta_open a a1 port q Hopen).
           by rewrite bool_decide_eq_false_2 by congruence.
      * split; [done|]. split; [by rewrite porta_print, Hport|].
        intros q Hq' _. rewrite porta_print, (porta_open a a1 port q Hopen).
        by rewrite bool_decide_eq_false_2 by congruence.
    + unfold Serial_open in Hopen. destruct (abre (porta a port)) eqn:Ha; [done|].
      by injection Hopen as <-.
Qed.

End Porta.

(** ** Starting again *)

Section Reinicio.
Context `{UCD : UnicodeData} {U : Type}.

Lemma listener_start_porta {W} (l : ListenerGuitarra.t W) a q :
  porta (snd (ListenerGuitarra.start l a)) q = porta a q /\
  ListenerGuitarra._input_port (fst (ListenerGuitarra.start l a))
  = ListenerGuitarra._input_port l.
Proof.
  unfold ListenerGuitarra.start. by destruct (negb _ && _).
Qed.

Lemma _loop_porta_fechada {W} th (s : ListenerGuitarra.Estado W) p :
  ListenerGuitarra._input_port (ListenerGuitarra.ouvinte s) = Some p ->
  is_open (porta (ListenerGuitarra.amb s) p) = false ->
  th ∈ vivas (ListenerGuitarra.amb s) ->
  ListenerGuitarra._loop th s = (ListenerGuitarra.fim_da_thread th s, []).
Proof.
  intros Hp Ho Hth. unfold ListenerGuitarra._loop.
  rewrite bool_decide_eq_true_2 by done. simpl.
  destruct (ListenerGuitarra._running (ListenerGuitarra.ouvinte s)); simpl; [|done].
  by rewrite Hp, Ho.
Qed.

(** X9. [start] of an interface whose listener already holds the port of
    the interface (a second [start], or a [start] after [stop]) leaves that
    port closed, whether it was open or not and whether the call raises or
    not. The polling thread then ends at its next turn: it reads no line,
    calls nothing, and leaves the listener and the world as they are. *)
Theorem start_again_closes_the_port (s : InterfaceGuitarra.Estado U) :
  let p := InterfaceGuitarra._porta (InterfaceGuitarra.self (ListenerGuitarra.mundo s)) in
  ListenerGuitarra._input_port (ListenerGuitarra.ouvinte s) = Some p ->
  let s' := fst (InterfaceGuitarra.start s) in
  ListenerGuitarra._input_port (ListenerGuitarra.ouvinte s') = Some p /\
  is_open (porta (ListenerGuitarra.amb s') p) = false /\
  forall th, th ∈ vivas (ListenerGuitarra.amb s') ->
    ListenerGuitarra._loop th s' = (ListenerGuitarra.fim_da_thread th s', []) /\
    (th ∉ vivas (ListenerGuitarra.amb (ListenerGuitarra.fim_da_thread th s'))).
Proof.
  intros p Hp s'.
  assert (H : ListenerGuitarra._input_port (ListenerGuitarra.ouvinte s') = Some p
              /\ is_open (porta (ListenerGuitarra.amb s') p) = false).
  { subst s'. unfold InterfaceGuitarra.start, ListenerGuitarra.input_port_setter.
    fold p. simpl. rewrite Hp.
    destruct (is_open (porta (ListenerGuitarra.amb s) p)) eqn:Ho.
    - set (a2 := print (Serial_close p (ListenerGuitarra.amb s)) _).
      set (l2 := ListenerGuitarra.com_input_port _ _).
      destruct (listener_start_porta l2 a2 p) as [Hq Hi].
      destruct (ListenerGuitarra.start l2 a2) as [l3 a3]. simpl in *.
      rewrite Hq, Hi. split; [done|]. subst a2. by rewrite porta_print, porta_close_eq.
    - destruct (Serial_open p (ListenerGuitarra.amb s)) as [a1|e]; simpl.
      + set (a2 := print (Serial_close p a1) _).
        set (l2 := ListenerGuitarra.com_input_port _ _).
        destruct (listener_start_porta l2 a2 p) as [Hq Hi].
        destruct (ListenerGuitarra.start l2 a2) as [l3 a3]. simpl in *.
        rewrite Hq, Hi. split; [done|]. subst a2. by rewrite porta_print, porta_close_eq.
      + done. }
  destruct H as [H1 H2]. split; [done|]. split; [done|].
  intros th Hth. split; [by apply (_loop_porta_fechada th s' p)|].
  simpl. intros [_ Hn]%elem_of_difference. apply Hn. by apply elem_of_singleton.
Qed.

End Reinicio.

(** ** Closing and starting again *)

Section Parada.
Context `{UCD : UnicodeData} {W : Type}.
Import ListenerGuitarra.

Implicit Types (l : ListenerGuitarra.t W) (w : W) (a : Ambiente).
Implicit Types (s : ListenerGuitarra.Estado W).

Lemma executa_coerente s ac :
  (_running (ouvinte s) = true -> _thread (ouvinte s) <> None) ->
  (_running (ouvinte (executa s ac)) = true -> _thread (ouvinte (executa s ac)) <> None).
Proof.
  intros Hinv. destruct ac; simpl.
  - unfold start. destruct (_running (ouvinte s)) eqn:Hr; simpl.
    + intros _. by apply Hinv.
    + case_bool_decide as Ht; simpl; [done|]. intros H. exfalso. revert H. by rewrite Hr.
  - done.
  - unfold close, Thread_join. destruct (_running (ouvinte s)) eqn:Hr.
    + destruct (_thread (ouvinte s)) as [th|]; [|done].
      by case_bool_decide.
    + simpl. intros H. exfalso. revert H. by rewrite Hr.
  - done.
  - unfold range_setter. destruct (como_float value) as [v|]; [|done].
    by repeat case_match.
  - unfold input_port_setter.
    by destruct (if is_open _ then _ else _) as [a1|e].
  - done.
  - destruct (join_retorna_resto (fst (_loop th s))) as (Hj1 & _ & _ & Hj).
    rewrite Hj1. intros Hr. rewrite (Hj Hr). rewrite _loop_running in Hr.
    destruct (_loop_thread th s) as [-> _]. by apply Hinv.
Qed.

Lemma executa_todas_coerente acs s :
  (_running (ouvinte s) = true -> _thread (ouvinte s) <> None) ->
  (_running (ouvinte (executa_todas s acs)) = true
   -> _thread (ouvinte (executa_todas s acs)) <> None).
Proof.
  revert s. induction acs as [|ac acs IH]; intros s Hs; [done|].
  simpl. apply IH. by apply executa_coerente.
Qed.

Lemma uma_thread_so_ela s th :
  uma_thread s -> _thread (ouvinte s) = Some th -> th ∉ vivas (amb s) ->
  vivas (amb s) = ∅.
Proof.
  intros H Ht Hth. apply set_eq. intros x. split; [|by intros ?%elem_of_empty].
  intros Hx. specialize (H x Hx). rewrite Ht in H. by injection H as ->.
Qed.

(** X10. [close] never finds [_thread] at None, and [close] then [start]
    replaces a thread that has ended. Whatever has been done to a listener
    since its creation, if it is marked as running then [_thread] holds its
    thread. While this thread is alive, [close] sets [_running] to False and
    waits for it: it has not returned. Once this thread has ended, [close]
    returns at once, and [start] after it leaves exactly one live thread, a
    new one, with the port, the callbacks, the tolerance and the buffered
    note that the listener had. *)
Theorem close_then_start_replaces_a_dead_thread ps w acs :
  let s := executa_todas {| ouvinte := novo; amb := ambiente_inicial ps; mundo := w |} acs in
  _running (ouvinte s) = true ->
  exists th,
    _thread (ouvinte s) = Some th /\
    (th ∈ vivas (amb s) ->
     close (ouvinte s) (amb s) = (com_thread (ouvinte s) false (Some th), amb s, Espera)) /\
    (th ∉ vivas (amb s) ->
     close (ouvinte s) (amb s) = (com_thread (ouvinte s) false None, amb s, Retornou) /\
     let s2 := executa_todas s [ChamaClose; ChamaStart] in
     _running (ouvinte s2) = true /\
     _thread (ouvinte s2) = Some (prox_thread (amb s)) /\
     vivas (amb s2) = {[prox_thread (amb s)]} /\
     _nota_buffer (ouvinte s2) = _nota_buffer (ouvinte s) /\
     _callbacks (ouvinte s2) = _callbacks (ouvinte s) /\
     _range (ouvinte s2) = _range (ouvinte s) /\
     _input_port (ouvinte s2) = _input_port (ouvinte s) /\
     portas (amb s2) = portas (amb s)).
Proof.
  intros s Hr.
  assert (Hu : uma_thread s).
  { apply executa_todas_uma_thread. intros th. simpl. by intros ?%elem_of_empty. }
  assert (Hc : _thread (ouvinte s) <> None).
  { apply executa_todas_coerente; [|done]. simpl. done. }
  clearbody s.
  destruct (_thread (ouvinte s)) as [th|] eqn:Ht; [|done].
  exists th. split; [done|]. split.
  - intros Hth. unfold close, Thread_join. rewrite Hr, Ht.
    by rewrite bool_decide_eq_true_2.
  - intros Hth.
    assert (Hcl : close (ouvinte s) (amb s)
                  = (com_thread (ouvinte s) false None, amb s, Retornou)).
    { unfold close, Thread_join. rewrite Hr, Ht. by rewrite bool_decide_eq_false_2. }
    split; [exact Hcl|].
    cbn [executa_todas fold_left executa]. rewrite Hcl.
    unfold start. cbn.
    do 2 (split; [done|]).
    split; [|done]. rewrite (uma_thread_so_ela s th Hu Ht Hth). apply (right_id_L ∅ (∪)).
Qed.

End Parada.

(** ** The two ranges *)

Section Faixa.
Context `{UCD : UnicodeData} {U : Type}.
Import InterfaceGuitarra.

Lemma start_range (s : InterfaceGuitarra.Estado U) :
  ListenerGuitarra._range (ListenerGuitarra.ouvinte (fst (start s)))
  = ListenerGuitarra._range (ListenerGuitarra.ouvinte s).
Proof.
  unfold start, ListenerGuitarra.input_port_setter.
  destruct (if is_open _ then _ else _) as [a1|e]; simpl; [|done].
  unfold ListenerGuitarra.start. simpl.
  by destruct (negb _ && _).
Qed.

(** X11. The [rangen] of the interface never reaches the listener. An
    interface is only made with a float [rangen] above 0 and at most 0.5,
    which it keeps for [_callback] through [atribui_notas]; the listener it
    holds keeps the 0.5 of its creation as the tolerance of its edges after
    any number of [start]s. *)
Theorem interface_range_never_reaches_the_listener
  serial_port (cb : Callable NotaProcessada.t U) rangen i0 kwargs n a u :
  __init__ serial_port cb rangen = Retorna i0 ->
  let i1 := fst (atribui_notas i0 kwargs) in
  let s := start_vezes n (nova i1 a u) in
  rangen = Num (PyFloat (_range i1)) /\
  int_lt_float 0 (_range i1) = true /\ fle (_range i1) meio = true /\
  self (ListenerGuitarra.mundo s) = i1 /\
  ListenerGuitarra._range (ListenerGuitarra.ouvinte s) = PyFloat meio.
Proof.
  intros Hinit i1 s.
  assert (Hi1 : _range i1 = _range i0).
  { subst i1. unfold atribui_notas. by destruct (atribui_notas_for _ _). }
  rewrite Hi1.
  unfold __init__ in Hinit.
  destruct rangen as [[z|r]|str|]; try done. simpl in Hinit.
  destruct (int_lt_float 0 r) eqn:H0; [|done].
  destruct (fle r meio) eqn:H1; [|done]. simpl in Hinit.
  injection Hinit as <-. simpl.
  split; [done|]. split; [done|]. split; [done|].
  split; [subst s; by destruct (start_vezes_callbacks n (nova i1 a u)) as [_ ->]|].
  subst s. induction n as [|n IH]; [done|].
  change (start_vezes (S n) (nova i1 a u)) with (fst (start (start_vezes n (nova i1 a u)))).
  by rewrite start_range.
Qed.

End Faixa.

(** ** Configuring the interface *)

Section Configuracao.
Context `{UCD : UnicodeData} {U : Type}.
Import InterfaceGuitarra.

Implicit Types (i : InterfaceGuitarra.t U) (nota : NotaGuitarra) (u : U).
Implicit Types (kwargs : list (string * numero)) (vs : list Z).
Implicit Types (log : list NotaProcessada.t) (d : dict string).

Lemma atribui_notas_for_retorna keys acc vals :
  atribui_notas_for keys acc = (vals, None) ->
  exists vs, Forall2 (fun c v => int c = Retorna v) keys vs /\ vals = acc ++ vs.
Proof.
  revert acc. induction keys as [|c keys IH]; intros acc; simpl.
  - intros [= <-]. exists []. split; [constructor|by rewrite app_nil_r].
  - destruct (int c) as [v|e] eqn:Hc; [|by destruct e].
    intros (vs & Hvs & ->)%IH. exists (v :: vs).
    split; [by constructor|by rewrite <- app_assoc].
Qed.

Lemma dict_setitem_length d c (nm : string) : length d <= length (dict_setitem d c nm).
Proof.
  induction d as [|[c0 nm0] d IH]; simpl; [lia|].
  destruct (num_eqb c0 c); simpl; lia.
Qed.

Lemma base_atribui_notas_length kwargs d : length d <= length (base_atribui_notas d kwargs).
Proof.
  revert d. induction kwargs as [|[nm c] kwargs IH]; intros d; [done|].
  unfold base_atribui_notas in *. simpl.
  etransitivity; [apply (dict_setitem_length d c nm)|apply IH].
Qed.

(** X12. [atribui_notas] adds to [_valores_dicionario] and never starts it
    again: a call that returns has appended the int of every key that
    [_dicionario] then holds, those of the earlier calls included, after
    the values that were there. *)
Theorem atribui_notas_converts_every_key_again i kwargs i' :
  atribui_notas i kwargs = (i', None) ->
  exists vs,
    Forall2 (fun c v => int c = Retorna v) (dict_keys (_dicionario i')) vs /\
    _valores_dicionario i' = _valores_dicionario i ++ vs /\
    length (_dicionario i) <= length vs /\
    length (_valores_dicionario i') = length (_valores_dicionario i) + length (_dicionario i').
Proof.
  unfold atribui_notas.
  destruct (atribui_notas_for _ _) as [vals e] eqn:Hfor.
  intros [= <- ->]. simpl.
  apply atribui_notas_for_retorna in Hfor as (vs & Hvs & ->).
  exists vs. split; [done|]. split; [done|].
  pose proof (Forall2_length _ _ _ Hvs) as Hlen.
  unfold dict_keys in Hlen. rewrite length_map in Hlen.
  pose proof (base_atribui_notas_length kwargs (_dicionario i)).
  split; [lia|]. rewrite length_app. lia.
Qed.

Lemma atribui_notas_for_levanta keys acc vals e :
  atribui_notas_for keys acc = (vals, Some e) ->
  exists ks1 k ks2 vs1,
    keys = ks1 ++ k :: ks2 /\
    Forall2 (fun c v => int c = Retorna v) ks1 vs1 /\
    vals = acc ++ vs1 /\
    ((k = PyFloat S754_nan /\ e = RuntimeError "Valor inválido: nan") \/
     (exists sg, k = PyFloat (S754_infinity sg) /\ e = OverflowError)).
Proof.
  revert acc. induction keys as [|c keys IH]; intros acc; simpl; [done|].
  destruct (int c) as [v|e'] eqn:Hc.
  - intros (ks1 & k & ks2 & vs1 & -> & H1 & -> & Hk)%IH.
    exists (c :: ks1), k, ks2, (v :: vs1).
    split; [done|]. split; [by constructor|]. split; [by rewrite <- app_assoc|done].
  - intros Hret. exists [], c, keys, [].
    split; [done|]. split; [constructor|]. rewrite app_nil_r.
    destruct c as [z|[sg|sg| |sg m ex]]; simpl in Hc; try done;
      injection Hc as <-; injection Hret as <- <-; (split; [done|]).
    + right. by exists sg.
    + by left.
Qed.

(** X13. What a failed [atribui_notas] leaves, for bindings whose codes are
    numbers. The call only raises on a key that is NaN, with the
    RuntimeError of line 37, or an infinity, with OverflowError, which the
    [except ValueError] does not turn into RuntimeError. Nothing is undone:
    [_dicionario] holds every binding of the call, the failing one included,
    and [_valores_dicionario] has gained the ints of the keys before the
    failing one. *)
Theorem atribui_notas_failure_keeps_the_bindings i kwargs i' e :
  atribui_notas i kwargs = (i', Some e) ->
  _dicionario i' = base_atribui_notas (_dicionario i) kwargs /\
  exists ks1 k ks2 vs1,
    dict_keys (_dicionario i') = ks1 ++ k :: ks2 /\
    Forall2 (fun c v => int c = Retorna v) ks1 vs1 /\
    _valores_dicionario i' = _valores_dicionario i ++ vs1 /\
    ((k = PyFloat S754_nan /\ e = RuntimeError "Valor inválido: nan") \/
     (exists sg, k = PyFloat (S754_infinity sg) /\ e = OverflowError)).
Proof.
  unfold atribui_notas.
  destruct (atribui_notas_for _ _) as [vals e'] eqn:Hfor.
  intros [= <- ->]. simpl. split; [done|].
  by apply atribui_notas_for_levanta in Hfor.
Qed.

Lemma _callback_for_entregues valores i nota u log :
  let '(u', log', e) := _callback_for valores i nota u log in
  exists nps,
    log' = log ++ nps /\
    length nps <= length valores /\
    Forall (fun np =>
      NotaProcessada.on np = on nota /\
      exists v fv, v ∈ valores /\ float_of_int v = Retorna fv /\
        fle (fabs (fsub (codigo nota) fv)) (_range i) = true /\
        dict_getitem (_dicionario i) v = Retorna (NotaProcessada.nome np)) nps.
Proof.
  revert u log. induction valores as [|valor valores IH]; intros u log; simpl.
  - exists []. split; [by rewrite app_nil_r|]. split; [done|constructor].
  - assert (Hmais : forall u0 log0,
      let '(u', log', e) := _callback_for valores i nota u0 log0 in
      exists nps, log' = log0 ++ nps /\ length nps <= length valores /\
        Forall (fun np =>
          NotaProcessada.on np = on nota /\
          exists v fv, v ∈ valor :: valores /\ float_of_int v = Retorna fv /\
            fle (fabs (fsub (codigo nota) fv)) (_range i) = true /\
            dict_getitem (_dicionario i) v = Retorna (NotaProcessada.nome np)) nps).
    { intros u0 log0. specialize (IH u0 log0).
      destruct (_callback_for valores i nota u0 log0) as [[u' log'] e].
      destruct IH as (nps & -> & Hlen & Hall). exists nps.
      split; [done|]. split; [done|].
      eapply Forall_impl; [exact Hall|].
      intros np (Hon & v & fv & Hin & H1 & H2 & H3). split; [done|].
      exists v, fv. split; [apply elem_of_cons; by right|done]. }
    destruct (float_of_int valor) as [fv|e] eqn:Hfv.
    2:{ exists []. split; [by rewrite app_nil_r|]. split; [simpl; lia|constructor]. }
    destruct (fle _ _) eqn:Hfle.
    2:{ specialize (Hmais u log).
        destruct (_callback_for valores i nota u log) as [[u' log'] e].
        destruct Hmais as (nps & -> & Hlen & Hall). exists nps.
        split; [done|]. split; [lia|done]. }
    destruct (dict_getitem _ valor) as [nm|e] eqn:Hg.
    2:{ exists []. split; [by rewrite app_nil_r|]. split; [simpl; lia|constructor]. }
    set (np := {| NotaProcessada.nome := nm; NotaProcessada.on := on nota |}).
    assert (Hnp : NotaProcessada.on np = on nota /\
       exists v fv', v ∈ valor :: valores /\ float_of_int v = Retorna fv' /\
         fle (fabs (fsub (codigo nota) fv')) (_range i) = true /\
         dict_getitem (_dicionario i) v = Retorna (NotaProcessada.nome np)).
    { split; [done|]. exists valor, fv. split; [apply elem_of_cons; by left|done]. }
    destruct (_callback_usuario i np u) as [u1 [e|]].
    + exists [np]. split; [done|]. split; [simpl; lia|]. by constructor.
    + specialize (Hmais u1 (log ++ [np])).
      destruct (_callback_for valores i nota u1 (log ++ [np])) as [[u' log'] e].
      destruct Hmais as (nps & -> & Hlen & Hall). exists (np :: nps).
      split; [by rewrite <- app_assoc|]. split; [simpl; lia|]. by constructor.
Qed.

(** X14. [_callback] only ever adds to what has been handed over, and only
    notes of bound names. Whether it returns or raises, it leaves the
    interface as it is, and the user's callback has been handed, after what
    it had been handed before, at most one note per value scanned, each
    with the [on] of the raw note and the name bound to a value of
    [_valores_dicionario] within [_range] of the raw code. *)
Theorem callback_hands_only_bound_names nota (m : Mundo U) :
  let '(m', e) := _callback nota m in
  self m' = self m /\
  exists nps,
    entregues m' = entregues m ++ nps /\
    length nps <= length (_valores_dicionario (self m)) /\
    Forall (fun np =>
      NotaProcessada.on np = on nota /\
      exists v fv, v ∈ _valores_dicionario (self m) /\ float_of_int v = Retorna fv /\
        fle (fabs (fsub (codigo nota) fv)) (_range (self m)) = true /\
        dict_getitem (_dicionario (self m)) v = Retorna (NotaProcessada.nome np)) nps.
Proof.
  unfold _callback.
  pose proof (_callback_for_entregues (_valores_dicionario (self m)) (self m) nota
                (usuario m) (entregues m)) as H.
  destruct (_callback_for _ _ _ _ _) as [[u' log'] e]. simpl. split; [done|exact H].
Qed.

End Configuracao.

Section DuasVezes.
Context `{UCD : UnicodeData} {U : Type}.
Import InterfaceGuitarra.

Implicit Types (i : InterfaceGuitarra.t U) (nota : NotaGuitarra) (u : U).
Implicit Types (kwargs : list (string * numero)) (vs : list Z).
Implicit Types (log : list NotaProcessada.t) (d : dict string).

Lemma num_eqb_proprio c v : num_eq_int c v = true -> num_eqb c c = true.
Proof.
  destruct c as [z|f]; simpl; [intros _; apply Z.eqb_refl|].
  unfold float_eq_int, float_cmp_int, SFeqb, SFcompare.
  destruct f as [sg|sg| |sg m e]; try done.
  - by destruct sg.
  - intros _. rewrite Z.compare_refl, Pos.compare_cont_refl. by destruct sg.
Qed.

Lemma dict_setitem_mesmo d1 d2 c (nm : string) :
  Forall (fun c' => num_eqb c' c = false) (dict_keys d1) ->
  num_eqb c c = true ->
  dict_setitem (d1 ++ (c, nm) :: d2) c nm = d1 ++ (c, nm) :: d2.
Proof.
  intros H1 Hc. induction d1 as [|[c0 nm0] d1 IH]; simpl.
  - by rewrite Hc.
  - apply Forall_cons in H1 as [H0 H1]. simpl in H0. rewrite H0. by rewrite IH.
Qed.

Lemma base_atribui_notas_de_novo antes kwargs vs0 vs :
  Forall2 (fun kv v => codigo_inteiro (snd kv) v) antes vs0 ->
  Forall2 (fun kv v => codigo_inteiro (snd kv) v) kwargs vs ->
  NoDup (vs0 ++ vs) ->
  forall depois,
  base_atribui_notas (map (fun kv => (snd kv, fst kv)) (antes ++ kwargs ++ depois)) kwargs
  = map (fun kv => (snd kv, fst kv)) (antes ++ kwargs ++ depois).
Proof.
  intros Ha Hk. revert antes vs0 Ha.
  induction Hk as [|[nm c] v kwargs vs Hc Hk IH]; intros antes vs0 Ha Hnd depois; [done|].
  unfold base_atribui_notas in *. simpl.
  assert (Hset : dict_setitem
            (map (fun kv => (snd kv, fst kv)) (antes ++ (nm, c) :: kwargs ++ depois)) c nm
          = map (fun kv => (snd kv, fst kv)) (antes ++ (nm, c) :: kwargs ++ depois)).
  { rewrite map_app. simpl. apply dict_setitem_mesmo.
    - unfold dict_keys. rewrite map_map. simpl. apply Forall_forall.
      intros c' Hin. apply list_elem_of_In in Hin. apply in_map_iff in Hin as (kv & <- & Hin).
      apply list_elem_of_In in Hin.
      destruct (num_eqb (snd kv) c) eqn:Heq; [|done].
      apply list_elem_of_lookup in Hin as [j Hj].
      destruct (Forall2_lookup_l _ _ _ _ _ Ha Hj) as (v' & Hv' & Hc').
      assert (v' = v) as -> by (by apply (codigo_inteiro_num_eqb (snd kv) c)).
      apply NoDup_app in Hnd as (_ & Hdis & _).
      destruct (Hdis v); [by eapply list_elem_of_lookup_2|apply elem_of_cons; by left].
    - destruct Hc as (_ & Hcv & _). by apply (num_eqb_proprio c v). }
  rewrite Hset.
  assert (Ha' : Forall2 (fun kv v => codigo_inteiro (snd kv) v)
                  (antes ++ [(nm, c)]) (vs0 ++ [v])).
  { apply Forall2_app; [done|]. by constructor. }
  assert (Hnd' : NoDup ((vs0 ++ [v]) ++ vs)) by (by rewrite <- app_assoc).
  specialize (IH (antes ++ [(nm, c)]) (vs0 ++ [v]) Ha' Hnd' depois).
  rewrite <- !app_assoc in IH. exact IH.
Qed.

(** X15. A second [atribui_notas] of the same bindings doubles every note.
    For bound codes that are integers, distinct from one another, the first
    call on a new interface and the second both return; the second leaves
    [_dicionario] as it was and [_valores_dicionario] twice as long, and
    [_callback] then hands each matching note to the user's callback
    twice. *)
Theorem second_atribui_notas_doubles_the_notes
  serial_port (cb : Callable NotaProcessada.t U) rangen i0 kwargs vs nota u log :
  __init__ serial_port cb rangen = Retorna i0 ->
  Forall2 (fun kv v => codigo_inteiro (snd kv) v) kwargs vs ->
  NoDup vs ->
  (forall np u', snd (cb np u') = None) ->
  exists i1 i2,
    atribui_notas i0 kwargs = (i1, None) /\
    atribui_notas i1 kwargs = (i2, None) /\
    _dicionario i2 = _dicionario i1 /\
    _valores_dicionario i1 = vs /\
    _valores_dicionario i2 = vs ++ vs /\
    _callback nota {| self := i2; usuario := u; entregues := log |}
    = ({| self := i2;
          usuario := usuario_apos i2 (resolvidas i2 nota kwargs ++ resolvidas i2 nota kwargs) u;
          entregues := log ++ resolvidas i2 nota kwargs ++ resolvidas i2 nota kwargs |},
       None).
Proof.
  intros Hinit Hk Hnd Hcb.
  assert (Hi0 : _dicionario i0 = [] /\ _valores_dicionario i0 = []
                /\ _callback_usuario i0 = cb).
  { unfold __init__ in Hinit. destruct (como_float rangen) as [r|]; [|done].
    destruct (int_lt_float 0 r && fle r meio); [|done].
    by injection Hinit as <-. }
  destruct Hi0 as (Hd0 & Hv0 & Hcb0).
  set (d := map (fun kv : string * numero => (snd kv, fst kv)) kwargs).
  assert (Hbase : base_atribui_notas [] kwargs = d).
  { apply (base_atribui_notas_inteiros kwargs vs [] []); [constructor|done|done]. }
  assert (Hbase2 : base_atribui_notas d kwargs = d).
  { pose proof (base_atribui_notas_de_novo [] kwargs [] vs (List.Forall2_nil _) Hk Hnd [])
      as H. simpl in H. by rewrite app_nil_r in H. }
  assert (Hkeys : Forall2 (fun c v => int c = Retorna v) (dict_keys d) vs).
  { unfold dict_keys, d. rewrite map_map. simpl. apply Forall2_fmap_l.
    eapply Forall2_impl; [exact Hk|]. by intros kv v (? & _). }
  eexists _, _. unfold atribui_notas at 1. rewrite Hd0, Hv0, Hbase.
  rewrite (atribui_notas_for_int _ _ _ Hkeys). simpl.
  split; [reflexivity|].
  unfold atribui_notas. simpl. rewrite Hbase2.
  rewrite (atribui_notas_for_int _ _ _ Hkeys). simpl.
  split; [reflexivity|]. split; [reflexivity|]. split; [reflexivity|].
  split; [reflexivity|].
  set (i2 := {| _porta := _porta i0; _valores_dicionario := vs ++ vs; _dicionario := d;
                _range := _range i0; _callback_usuario := _callback_usuario i0 |}).
  assert (Hres : forall u' log',
    _callback_for vs i2 nota u' log'
    = (usuario_apos i2 (resolvidas i2 nota kwargs) u', log' ++ resolvidas i2 nota kwargs, None)).
  { intros u' log'. apply _callback_for_resolvidas.
    - simpl. by rewrite Hcb0.
    - simpl. pose proof (dict_getitem_inteiros kwargs vs [] (List.Forall_nil _) Hk Hnd) as Hg.
      by apply Forall2_conj. }
  unfold _callback. simpl. rewrite _callback_for_app, Hres, Hres.
  unfold usuario_apos. by rewrite fold_left_app, <- app_assoc.
Qed.

End DuasVezes.

(** ** The lines of the device *)

Section Campos.
Context `{UCD : UnicodeData} {W : Type}.
Import ListenerGuitarra.

Lemma split_length sep (s : str) :
  length (split sep s) = S (length (List.filter (fun c => (c =? sep)%N) s)).
Proof.
  induction s as [|c r IH]; simpl; [done|].
  destruct (c =? sep)%N; simpl; [by rewrite IH|].
  destruct (split sep r) as [|f fs]; [done|]. exact IH.
Qed.

Lemma split_sem sep (s : str) :
  Forall (fun c => (c =? sep)%N = false) s -> split sep s = [s].
Proof.
  induction 1 as [|c s Hc _ IH]; [done|]. simpl. by rewrite Hc, IH.
Qed.

Lemma split_app sep (a b : str) :
  Forall (fun c => (c =? sep)%N = false) a ->
  split sep (a ++ sep :: b) = a :: split sep b.
Proof.
  induction 1 as [|c a Hc _ IH]; simpl.
  - by rewrite N.eqb_refl.
  - by rewrite Hc, IH.
Qed.

Lemma lstrip_brancos (e s : str) :
  Forall (fun c => uc_space c = true) e -> lstrip (e ++ s) = lstrip s.
Proof. induction 1 as [|c e Hc _ IH]; [done|]. cbn [app lstrip]. by rewrite Hc. Qed.

Lemma lstrip_cheio (s : str) :
  Forall (fun c => uc_space c = false) s -> lstrip s = s.
Proof. destruct 1 as [|c s Hc _]; [done|]. cbn [lstrip]. by rewrite Hc. Qed.

Lemma strip_campo (e1 campo e2 : str) :
  Forall (fun c => uc_space c = true) e1 ->
  Forall (fun c => uc_space c = true) e2 ->
  Forall (fun c => uc_space c = false) campo ->
  strip (e1 ++ campo ++ e2) = campo.
Proof.
  intros H1 H2 Hc. unfold strip.
  rewrite (lstrip_brancos e1 _ H1).
  assert (Hl : lstrip (campo ++ e2) = campo ++ e2 \/ (campo = [] /\ lstrip e2 = [])).
  { destruct Hc as [|c campo Hc0 Hc]; [right|left; cbn [app lstrip]; by rewrite Hc0].
    split; [done|]. cbn [app]. clear -H2. induction H2 as [|c e Hc _ IH]; [done|].
    cbn [lstrip]. by rewrite Hc. }
  destruct Hl as [->|[-> He2]]; [|cbn [app]; by rewrite He2].
  rewrite rev_app_distr, lstrip_brancos.
  - rewrite lstrip_cheio; [apply rev_involutive|].
    apply Forall_forall. intros c Hin%list_elem_of_In%in_rev%list_elem_of_In.
    by eapply Forall_forall in Hc.
  - apply Forall_forall. intros c Hin%list_elem_of_In%in_rev%list_elem_of_In.
    by eapply Forall_forall in H2.
Qed.

(** X16. A line is only read as a note when it has one [;]. The body of the
    loop leaves with [continue], the listener and the world as they were
    and no callback called, on every line that is not valid UTF-8 and on
    every line whose text does not hold exactly one [;]. *)
Theorem line_without_one_separator_is_dropped (l : ListenerGuitarra.t W) linha_bytes w :
  (forall linha, Utf8.decode linha_bytes = Some linha -> separadores linha <> 1) ->
  _loop_corpo l linha_bytes w
  = {| it_listener := l; it_mundo := w; it_chamadas := []; it_erro := None |}.
Proof.
  intros H. unfold _loop_corpo, decodifica.
  destruct (Utf8.decode linha_bytes) as [linha|]; [|done].
  specialize (H linha eq_refl). unfold separadores in H.
  pose proof (split_length ponto_e_virgula linha) as Hlen.
  destruct (split ponto_e_virgula linha) as [|f1 [|f2 [|f3 fs]]]; simpl in *; try done.
  lia.
Qed.

End Campos.

Section Formato.
#[local] Existing Instance Latin1.ucd.
Import ListenerGuitarra.

Lemma decode_ascii bs :
  Forall (fun b => (Byte.to_N b <? 0x80)%N = true) bs ->
  Utf8.decode bs = Some (map Byte.to_N bs).
Proof.
  unfold Utf8.decode. induction 1 as [|b bs Hb _ IH]; [done|].
  cbn [map Utf8.decode_N]. by rewrite Hb, IH.
Qed.

Lemma digito_ascii_classe b :
  digito_ascii b = true ->
  (Byte.to_N b <? 0x80)%N = true /\
  (Byte.to_N b =? ponto_e_virgula)%N = false /\
  Latin1.space (Byte.to_N b) = false /\
  Latin1.numeric (Byte.to_N b) = true /\
  Latin1.decimal (Byte.to_N b) = Some (Z.of_N (Byte.to_N b) - 0x30)%Z.
Proof. by destruct b. Qed.

Lemma branco_ascii_classe b :
  branco_ascii b = true ->
  (Byte.to_N b <? 0x80)%N = true /\
  (Byte.to_N b =? ponto_e_virgula)%N = false /\
  Latin1.space (Byte.to_N b) = true.
Proof. by destruct b. Qed.

Lemma digitos_ascii ds acc :
  Forall (fun b => digito_ascii b = true) ds ->
  digitos acc (map Byte.to_N ds)
  = Some (fold_left (fun acc b => (10 * acc + (Z.of_N (Byte.to_N b) - 0x30))%Z) ds acc).
Proof.
  intros H. revert acc. induction H as [|b ds Hb _ IH]; intros acc; [done|].
  cbn [map digitos fold_left].
  destruct (digito_ascii_classe b Hb) as (_ & _ & _ & _ & Hd).
  change (uc_decimal (Byte.to_N b)) with (Latin1.decimal (Byte.to_N b)).
  by rewrite Hd, IH.
Qed.

Lemma Forall_map_classe (P : byte -> bool) (Q : codepoint -> Prop) bs :
  (forall b, P b = true -> Q (Byte.to_N b)) ->
  Forall (fun b => P b = true) bs -> Forall Q (map Byte.to_N bs).
Proof.
  intros HPQ H. apply Forall_forall. intros c Hin%list_elem_of_In.
  apply in_map_iff in Hin as (b & <- & Hin%list_elem_of_In).
  apply HPQ. by eapply Forall_forall in H.
Qed.

(** X17. Every line in the format of the device is read as its note. Let a
    line hold a run of one or more ASCII digits, [;] and [1] or [0], with
    any ASCII white space before, between and after (as the line ending).
    The line is decoded without an exception into the note whose code is
    the float nearest to the number the digits write, and whose [on] says
    whether the flag is [1]. *)
Theorem device_line_is_read_as_its_note e1 ds e2 e3 b e4 :
  ds <> [] ->
  Forall (fun x => digito_ascii x = true) ds ->
  Forall (fun x => branco_ascii x = true) (e1 ++ e2 ++ e3 ++ e4) ->
  decodifica (linha_do_dispositivo e1 ds e2 e3 b e4)
  = Amostra {| codigo := float_of_Z (valor_decimal ds); on := b |}.
Proof.
  intros Hne Hds He.
  apply Forall_app in He as [He1 He]. apply Forall_app in He as [He2 He].
  apply Forall_app in He as [He3 He4].
  assert (Hesp : forall e, Forall (fun x => branco_ascii x = true) e ->
            Forall (fun c => uc_space c = true) (map Byte.to_N e)
            /\ Forall (fun c => (c =? ponto_e_virgula)%N = false) (map Byte.to_N e)
            /\ Forall (fun x => (Byte.to_N x <? 0x80)%N = true) e).
  { intros e H. split; [|split].
    - apply (Forall_map_classe branco_ascii); [|done].
      intros x Hx. by destruct (branco_ascii_classe x Hx) as (_ & _ & ?).
    - apply (Forall_map_classe branco_ascii); [|done].
      intros x Hx. by destruct (branco_ascii_classe x Hx) as (_ & ? & _).
    - eapply Forall_impl; [exact H|].
      intros x Hx. by destruct (branco_ascii_classe x Hx) as (? & _). }
  destruct (Hesp e1 He1) as (S1 & P1 & A1). destruct (Hesp e2 He2) as (S2 & P2 & A2).
  destruct (Hesp e3 He3) as (S3 & P3 & A3). destruct (Hesp e4 He4) as (S4 & P4 & A4).
  assert (Sd : Forall (fun c => uc_space c = false) (map Byte.to_N ds)).
  { apply (Forall_map_classe digito_ascii); [|done].
    intros x Hx. by destruct (digito_ascii_classe x Hx) as (_ & _ & ? & _). }
  assert (Pd : Forall (fun c => (c =? ponto_e_virgula)%N = false) (map Byte.to_N ds)).
  { apply (Forall_map_classe digito_ascii); [|done].
    intros x Hx. by destruct (digito_ascii_classe x Hx) as (_ & ? & _). }
  assert (Nd : Forall (fun c => uc_numeric c = true) (map Byte.to_N ds)).
  { apply (Forall_map_classe digito_ascii); [|done].
    intros x Hx. by destruct (digito_ascii_classe x Hx) as (_ & _ & _ & ? & _). }
  assert (Ad : Forall (fun x => (Byte.to_N x <? 0x80)%N = true) ds).
  { eapply Forall_impl; [exact Hds|].
    intros x Hx. by destruct (digito_ascii_classe x Hx) as (? & _). }
  set (f := if b then x31 else x30).
  unfold decodifica, linha_do_dispositivo. fold f.
  rewrite decode_ascii.
  2:{ repeat (apply Forall_app; split; [done|]).
      apply Forall_app. split; [by repeat constructor|].
      apply Forall_app. split; [done|].
      apply Forall_app. split; [|done]. constructor; [by destruct b|constructor]. }
  rewrite !map_app.
  change (map Byte.to_N [x3b]) with [ponto_e_virgula].
  change (map Byte.to_N [f]) with [Byte.to_N f].
  match goal with
  | |- context [split ponto_e_virgula ?t] =>
      replace t
        with ((map Byte.to_N e1 ++ map Byte.to_N ds ++ map Byte.to_N e2)
              ++ ponto_e_virgula :: (map Byte.to_N e3 ++ [Byte.to_N f] ++ map Byte.to_N e4))
        by (by rewrite <- !app_assoc)
  end.
  rewrite split_app by (by repeat (apply Forall_app; split; [done|])).
  rewrite split_sem.
  2:{ apply Forall_app. split; [done|]. apply Forall_app. split; [|done].
      constructor; [by destruct b|constructor]. }
  cbn [map].
  rewrite strip_campo; [|done|done|done].
  rewrite strip_campo; [|done|done|constructor; [by destruct b|constructor]].
  assert (Hnum : isnumeric (map Byte.to_N ds) = true).
  { unfold isnumeric. destruct ds as [|d ds']; [done|].
    apply forallb_forall. intros c Hin%list_elem_of_In. by eapply Forall_forall in Nd. }
  rewrite Hnum. cbn [negb].
  unfold float_of_numeric. rewrite (digitos_ascii ds 0 Hds). fold (valor_decimal ds).
  by destruct b.
Qed.

End Formato.

(** ** The guitar of the game *)

Section Guitarra.
Context `{UCD : UnicodeData} {U : Type}.
Import InterfaceGuitarra.

Implicit Types (i : InterfaceGuitarra.t U) (nota : NotaGuitarra) (u : U).
Implicit Types (log : list NotaProcessada.t).

Lemma cinco_notas_atribuidas i0 :
  _dicionario i0 = [] -> _valores_dicionario i0 = [] ->
  atribui_notas i0 Exemplos.cinco_notas
  = ({| _porta := _porta i0; _valores_dicionario := [1; 2; 3; 4; 5]%Z;
        _dicionario := map (fun kv => (snd kv, fst kv)) Exemplos.cinco_notas;
        _range := _range i0; _callback_usuario := _callback_usuario i0 |}, None).
Proof.
  intros Hd Hv. unfold atribui_notas. rewrite Hd, Hv.
  assert (Hb : base_atribui_notas [] Exemplos.cinco_notas
               = map (fun kv => (snd kv, fst kv)) Exemplos.cinco_notas)
    by (vm_compute; reflexivity).
  rewrite Hb.
  assert (Hf : atribui_notas_for
                 (dict_keys (map (fun kv : string * numero => (snd kv, fst kv))
                               Exemplos.cinco_notas)) []
               = ([1; 2; 3; 4; 5]%Z, None))
    by (vm_compute; reflexivity).
  by rewrite Hf.
Qed.

Lemma _iniciar_guitarra_casos p rc (cb : Callable NotaProcessada.t U) a u :
  match Jogo._iniciar_guitarra p rc cb a u with
  | Retorna s =>
      abre (porta a p) = true /\
      exists r, rc = Num (PyFloat r) /\ int_lt_float 0 r = true /\ fle r meio = true /\
        s = {| ListenerGuitarra.ouvinte :=
                 {| ListenerGuitarra._input_port := Some p;
                    ListenerGuitarra._callbacks := [fun x => _callback x];
                    ListenerGuitarra._range := PyFloat meio;
                    ListenerGuitarra._running := true;
                    ListenerGuitarra._thread := Some (prox_thread a);
                    ListenerGuitarra._nota_buffer := None |};
               ListenerGuitarra.amb :=
                 {| portas := <[p := com_aberta (porta a p) true]> (portas a);
                    vivas := {[prox_thread a]} ∪ vivas a;
                    prox_thread := S (prox_thread a);
                    stdout := stdout a
                              ++ [("porta " ++ name (porta a p) ++ " configurada")%string;
                                  "Iniciando thread"%string] |};
               ListenerGuitarra.mundo :=
                 {| self := {| _porta := p; _valores_dicionario := [1; 2; 3; 4; 5]%Z;
                               _dicionario := map (fun kv => (snd kv, fst kv))
                                                Exemplos.cinco_notas;
                               _range := r; _callback_usuario := cb |};
                    usuario := u; entregues := [] |} |}
  | Levanta e =>
      (abre (porta a p) = false /\ e = SerialException) \/
      (abre (porta a p) = true /\ e = RuntimeError "Valor invalido para rangen" /\
       forall r, rc = Num (PyFloat r) -> int_lt_float 0 r && fle r meio = false)
  end.
Proof.
  unfold Jogo._iniciar_guitarra, Serial_open.
  destruct (abre (porta a p)) eqn:Ha; [|by left].
  destruct (__init__ p cb rc) as [i0|e] eqn:Hinit.
  - assert (Hi0 : exists r, rc = Num (PyFloat r) /\ int_lt_float 0 r = true
                    /\ fle r meio = true
                    /\ i0 = {| _porta := p; _valores_dicionario := []; _dicionario := [];
                               _range := r; _callback_usuario := cb |}).
    { unfold __init__ in Hinit. destruct rc as [[z|r]|str|]; try done.
      simpl in Hinit. destruct (int_lt_float 0 r) eqn:H0; [|done].
      destruct (fle r meio) eqn:H1; [|done]. injection Hinit as <-. by exists r. }
    destruct Hi0 as (r & -> & H0 & H1 & ->).
    rewrite cinco_notas_atribuidas by done.
    unfold start, nova, ListenerGuitarra.input_port_setter.
    cbn [ListenerGuitarra.mundo ListenerGuitarra.amb ListenerGuitarra.ouvinte self _porta].
    assert (Hp : porta (com_portas a (<[p:=com_aberta (porta a p) true]> (portas a))) p
                 = com_aberta (porta a p) true).
    { unfold porta at 1. simpl. by rewrite lookup_insert_eq. }
    rewrite Hp. simpl.
    split; [done|]. exists r. split; [done|]. split; [done|]. split; [done|].
    unfold print. simpl. rewrite Hp. simpl. by rewrite <- app_assoc.
  - right. split; [done|].
    unfold __init__ in Hinit. destruct rc as [[z|r]|str|]; simpl in Hinit;
      try (injection Hinit as <-; by split).
    destruct (int_lt_float 0 r && fle r meio) eqn:H0; [done|].
    injection Hinit as <-. split; [done|]. by intros r' [= <-].
Qed.

(** X18. [_iniciar_guitarra] sets the guitar up exactly when the port can be
    opened and the range of the calibration is a float above 0 and at most
    0.5. It then leaves an interface whose listener holds the open port and
    one callback and runs one new thread, with the values 1 to 5 to scan and
    the range of the calibration. It raises SerialException when the port
    cannot be opened, and otherwise RuntimeError for the range; neither
    [atribui_notas] nor [start] raises. *)
Theorem guitar_setup_needs_the_port_and_the_range
  p rc (cb : Callable NotaProcessada.t U) a u :
  match Jogo._iniciar_guitarra p rc cb a u with
  | Retorna s =>
      abre (porta a p) = true /\
      rc = Num (PyFloat (_range (self (ListenerGuitarra.mundo s)))) /\
      int_lt_float 0 (_range (self (ListenerGuitarra.mundo s))) = true /\
      fle (_range (self (ListenerGuitarra.mundo s))) meio = true /\
      ListenerGuitarra._callbacks (ListenerGuitarra.ouvinte s) = [fun x => _callback x] /\
      ListenerGuitarra._input_port (ListenerGuitarra.ouvinte s) = Some p /\
      is_open (porta (ListenerGuitarra.amb s) p) = true /\
      ListenerGuitarra._running (ListenerGuitarra.ouvinte s) = true /\
      ListenerGuitarra._thread (ListenerGuitarra.ouvinte s) = Some (prox_thread a) /\
      vivas (ListenerGuitarra.amb s) = {[prox_thread a]} ∪ vivas a /\
      _valores_dicionario (self (ListenerGuitarra.mundo s)) = [1; 2; 3; 4; 5]%Z /\
      usuario (ListenerGuitarra.mundo s) = u
  | Levanta e =>
      (abre (porta a p) = false /\ e = SerialException) \/
      (abre (porta a p) = true /\ e = RuntimeError "Valor invalido para rangen" /\
       match rc with
       | Num (PyFloat r) => int_lt_float 0 r && fle r meio = false
       | _ => True
       end)
  end.
Proof.
  pose proof (_iniciar_guitarra_casos p rc cb a u) as H.
  destruct (Jogo._iniciar_guitarra p rc cb a u) as [s|e].
  - destruct H as (Ha & r & -> & H0 & H1 & ->). simpl.
    do 6 (split; [done|]). split; [|done].
    unfold porta. simpl. by rewrite lookup_insert_eq.
  - destruct H as [H|(Ha & He & Hr)]; [by left|right].
    split; [done|]. split; [done|].
    destruct rc as [[z|r]|str|]; try done. by apply Hr.
Qed.

Lemma fle_zero_positivo r :
  int_lt_float 0 r = true -> fle (S754_zero false) r = true.
Proof.
  unfold int_lt_float, float_cmp_int, fle, SFleb, SFcompare.
  destruct r as [sg|sg| |sg m e]; try done.
  - by destruct sg.
  - destruct sg; [|done]. unfold cond_Zopp.
    destruct (0 <=? e)%Z eqn:He.
    + apply Z.leb_le in He.
      assert (0 < 2 ^ e)%Z by (apply Z.pow_pos_nonneg; lia).
      destruct (Z.compare_spec (- Z.pos m * 2 ^ e) 0); try done. nia.
    + rewrite Z.mul_0_l. done.
Qed.

Lemma meio_finito : meio = S754_finite false 4503599627370496 (-53).
Proof. vm_compute. reflexivity. Qed.

Lemma fle_longe x r :
  fle r meio = true ->
  match x with S754_finite false _ e => (-53 <? e)%Z | _ => false end = true ->
  fle x r = false.
Proof.
  rewrite meio_finito. unfold fle, SFleb, SFcompare.
  destruct x as [sx|sx| |sx mx ex]; try done. destruct sx; [done|].
  intros Hr Hx%Z.ltb_lt.
  destruct r as [sg|sg| |sg m e]; try done.
  - by destruct sg.
  - destruct sg; [done|].
    destruct (Z.compare_spec e (-53)) as [He|He|He]; try done.
    + subst e. destruct (Z.compare_spec ex (-53)); try done; lia.
    + destruct (Z.compare_spec ex e); try done; lia.
Qed.

Lemma _callback_for_longe vs i nota u log :
  Forall (fun v => exists fv, float_of_int v = Retorna fv
                     /\ fle (fabs (fsub (codigo nota) fv)) (_range i) = false) vs ->
  _callback_for vs i nota u log = (u, log, None).
Proof.
  induction 1 as [|v vs (fv & Hfv & Hfle) _ IH]; simpl; [done|].
  by rewrite Hfv, Hfle.
Qed.

Lemma _callback_for_uma vs1 v vs2 i nota u log fv nm :
  Forall (fun v' => exists fv', float_of_int v' = Retorna fv'
                      /\ fle (fabs (fsub (codigo nota) fv')) (_range i) = false) vs1 ->
  Forall (fun v' => exists fv', float_of_int v' = Retorna fv'
                      /\ fle (fabs (fsub (codigo nota) fv')) (_range i) = false) vs2 ->
  float_of_int v = Retorna fv ->
  fle (fabs (fsub (codigo nota) fv)) (_range i) = true ->
  dict_getitem (_dicionario i) v = Retorna nm ->
  let np := {| NotaProcessada.nome := nm; NotaProcessada.on := on nota |} in
  _callback_for (vs1 ++ v :: vs2) i nota u log
  = (fst (_callback_usuario i np u), log ++ [np], snd (_callback_usuario i np u)).
Proof.
  intros H1 H2 Hfv Hfle Hg np.
  rewrite _callback_for_app, (_callback_for_longe vs1 _ _ _ _ H1). simpl.
  rewrite Hfv, Hfle, Hg. fold np.
  destruct (_callback_usuario i np u) as [u1 [e|]]; [done|].
  by rewrite (_callback_for_longe vs2 _ _ _ _ H2).
Qed.

Ltac longe H1 :=
  eexists; split; [vm_compute; reflexivity|];
  apply fle_longe; [exact H1|vm_compute; reflexivity].

Ltac uma_de_cinco H0 H1 vs1 v vs2 nm :=
  let fv := eval vm_compute in (float_of_Z v) in
  rewrite (_callback_for_uma vs1 v vs2 _ _ _ _ fv nm);
  [reflexivity
  |repeat (constructor; [longe H1|]); constructor
  |repeat (constructor; [longe H1|]); constructor
  |vm_compute; reflexivity
  |replace (fabs _) with (S754_zero false) by (vm_compute; reflexivity);
   by apply fle_zero_positivo
  |vm_compute; reflexivity].

(** X19. After [_iniciar_guitarra], each code of the five bindings is
    resolved to its own name and to no other, whatever the range of the
    calibration: on a raw note that has the code of a binding, [_callback]
    calls the callback of the game once, with the name of this binding and
    the [on] of the note, and returns or raises what this call does. *)
Theorem guitar_setup_resolves_each_bound_code
  p r (cb : Callable NotaProcessada.t U) a u s nm c b u' log :
  Jogo._iniciar_guitarra p (Num (PyFloat r)) cb a u = Retorna s ->
  (nm, PyFloat c) ∈ Exemplos.cinco_notas ->
  let np := {| NotaProcessada.nome := nm; NotaProcessada.on := b |} in
  _callback {| codigo := c; on := b |}
    {| self := self (ListenerGuitarra.mundo s); usuario := u'; entregues := log |}
  = ({| self := self (ListenerGuitarra.mundo s); usuario := fst (cb np u');
        entregues := log ++ [np] |}, snd (cb np u')).
Proof.
  intros Hs Hin np.
  pose proof (_iniciar_guitarra_casos p (Num (PyFloat r)) cb a u) as H.
  rewrite Hs in H. destruct H as (_ & r' & [= <-] & H0 & H1 & ->).
  unfold _callback.
  cbn [ListenerGuitarra.mundo self usuario entregues _valores_dicionario].
  set (i := {| _porta := p; _valores_dicionario := [1; 2; 3; 4; 5]%Z;
               _dicionario := map (fun kv => (snd kv, fst kv)) Exemplos.cinco_notas;
               _range := r; _callback_usuario := cb |}).
  change (fle r meio = true) with (fle (_range i) meio = true) in H1.
  change (int_lt_float 0 r = true) with (int_lt_float 0 (_range i) = true) in H0.
  unfold Exemplos.cinco_notas in Hin.
  repeat (apply elem_of_cons in Hin as [Hin|Hin]); try (by apply elem_of_nil in Hin);
    injection Hin as -> ->; subst np.
  - uma_de_cinco H0 H1 (@nil Z) 1%Z [2; 3; 4; 5]%Z "nota1"%string.
  - uma_de_cinco H0 H1 [1]%Z 2%Z [3; 4; 5]%Z "nota2"%string.
  - uma_de_cinco H0 H1 [1; 2]%Z 3%Z [4; 5]%Z "nota3"%string.
  - uma_de_cinco H0 H1 [1; 2; 3]%Z 4%Z [5]%Z "nota4"%string.
  - uma_de_cinco H0 H1 [1; 2; 3; 4]%Z 5%Z (@nil Z) "nota5"%string.
Qed.

End Guitarra.

(** ** The properties above on concrete inputs *)

Section Testemunhas.
Import Exemplos Cenarios.
#[local] Existing Instance Latin1.ucd.

(** Witness of X3: a release, noise and a press of another code; the
    buffer ends with the press. *)
Lemma loop_only_moves_the_buffer_witness :
  let l := registrados [anota 0] in
  let linhas := [linha "1;0"; linha "ruido"; linha "2;1"] in
  let it := _loop_leituras l linhas [] in
  ListenerGuitarra.it_erro it = None /\
  ListenerGuitarra._nota_buffer (ListenerGuitarra.it_listener it)
  = ultima_amostra (ListenerGuitarra._nota_buffer l) linhas.
Proof.
  intros l linhas it. split; [vm_compute; reflexivity|].
  pose proof (loop_only_moves_the_buffer l linhas []) as H. cbv zeta in H.
  destruct H as (_ & _ & _ & _ & _ & H). apply H. vm_compute; reflexivity.
Defined.

(** Witness of X4: a new listener with one callback, a release and a
    press: at most one call. *)
Lemma calls_come_from_the_lines_read_witness :
  let l := registrados [anota 0] in
  let linhas := [linha "1;0"; linha "1;1"] in
  let it := _loop_leituras l linhas [] in
  length (ListenerGuitarra.it_chamadas it)
  <= length (ListenerGuitarra._callbacks l) * (length (amostras linhas) - 1).
Proof.
  intros l linhas it.
  pose proof (calls_come_from_the_lines_read l linhas []) as H. cbv zeta in H.
  destruct H as [_ H]. apply H. reflexivity.
Defined.

(** Witness of X5: the thread 0 of [em_escuta] and the three lines of its
    port. *)
Lemma thread_turns_run_the_loop_witness :
  let linhas := [linha "1;0"; linha "ruido"; linha "1;1"] in
  let it := _loop_leituras (ListenerGuitarra.ouvinte em_escuta) linhas
              (ListenerGuitarra.mundo em_escuta) in
  let s' := fst (turnos (length linhas) 0 em_escuta) in
  ListenerGuitarra.ouvinte s' = ListenerGuitarra.it_listener it /\
  ListenerGuitarra.mundo s' = ListenerGuitarra.it_mundo it /\
  snd (turnos (length linhas) 0 em_escuta) = ListenerGuitarra.it_chamadas it /\
  (0 ∈ vivas (ListenerGuitarra.amb s') <-> ListenerGuitarra.it_erro it = None) /\
  (ListenerGuitarra.it_erro it = None -> rx (porta (ListenerGuitarra.amb s') 0) = []).
Proof.
  apply (thread_turns_run_the_loop 0 em_escuta 0
           [linha "1;0"; linha "ruido"; linha "1;1"]).
  - apply (bool_decide_unpack _). vm_compute. exact I.
  - vm_compute; reflexivity.
  - vm_compute; reflexivity.
  - vm_compute; reflexivity.
  - vm_compute; reflexivity.
Defined.

(** Witness of X6: the tolerance set from [-1.0], then a release and a
    press of the same code. *)
Lemma nonpositive_tolerance_witness :
  let it := _loop_leituras
              (ListenerGuitarra.range_setter (registrados [anota 0])
                 (Num (PyFloat (float_of_Z (-1)))))
              [linha "1;0"; linha "1;1"] [] in
  ListenerGuitarra.it_chamadas it = [] /\ ListenerGuitarra.it_mundo it = [].
Proof.
  apply (nonpositive_tolerance_silences_the_listener
           (registrados [anota 0]) (float_of_Z (-1)) [linha "1;0"; linha "1;1"] []).
  vm_compute; reflexivity.
Defined.

(** Witness of X7: two callbacks that return, ["1;0"] then ["1;1"]. *)
Lemma toggle_of_the_same_code_witness :
  let l := depois_de (registrados [anota 0; anota 1]) (linha "1;0") [] in
  ListenerGuitarra._loop_corpo l (linha "1;1") []
  = {| ListenerGuitarra.it_listener :=
         ListenerGuitarra.com_nota_buffer l (Some (nota 1 true));
       ListenerGuitarra.it_mundo :=
         ListenerGuitarra.mundo_apos (ListenerGuitarra._callbacks l) (nota 1 true) [];
       ListenerGuitarra.it_chamadas :=
         map (fun j => (j, nota 1 true)) (seq 0 (length (ListenerGuitarra._callbacks l)));
       ListenerGuitarra.it_erro := None |}.
Proof.
  apply (toggle_of_the_same_code_is_reported
           (depois_de (registrados [anota 0; anota 1]) (linha "1;0") [])
           (nota 1 false) (nota 1 true) (linha "1;1") []).
  - vm_compute; reflexivity.
  - vm_compute; reflexivity.
  - vm_compute; reflexivity.
  - vm_compute; reflexivity.
  - vm_compute; discriminate.
  - vm_compute; reflexivity.
  - repeat (apply List.Forall_cons; [intros x w'; reflexivity|]). apply List.Forall_nil.
Defined.

(** Witness of X8: the listener on the port 0 is given the port 1, which
    is opened; the port 0 is closed. *)
Lemma input_port_setter_witness :
  let r := ListenerGuitarra.input_port_setter (ListenerGuitarra.ouvinte na_porta_0) 1
             (ListenerGuitarra.amb na_porta_0) in
  snd r = None /\
  is_open (porta (snd (fst r)) 0) = false /\
  is_open (porta (snd (fst r)) 1) = true.
Proof.
  intros r. subst r.
  pose proof (input_port_setter_swaps_the_port (ListenerGuitarra.ouvinte na_porta_0) 1
                (ListenerGuitarra.amb na_porta_0)) as H.
  destruct (ListenerGuitarra.input_port_setter _ _ _) as [[l' a'] [e|]] eqn:E.
  - vm_compute in E. discriminate E.
  - destruct H as (_ & _ & Hant & Hport & _). split; [reflexivity|]. split.
    + apply (Hant 0). vm_compute; reflexivity.
    + simpl. rewrite Hport. vm_compute; reflexivity.
Defined.

(** Witness of X9: the second [start] of [iniciada]. *)
Lemma start_again_witness :
  let s' := fst (InterfaceGuitarra.start iniciada) in
  ListenerGuitarra._input_port (ListenerGuitarra.ouvinte s') = Some 0 /\
  is_open (porta (ListenerGuitarra.amb s') 0) = false /\
  ListenerGuitarra._loop 0 s' = (ListenerGuitarra.fim_da_thread 0 s', []).
Proof.
  intros s'.
  pose proof (start_again_closes_the_port iniciada) as H. cbv zeta in H.
  destruct H as (H1 & H2 & H3); [vm_compute; reflexivity|].
  split; [exact H1|]. split; [exact H2|].
  apply (H3 0). apply (bool_decide_unpack _). vm_compute. exact I.
Defined.

(** Witness of X10: a listener started with no port, whose thread has
    ended at its first turn. *)
Lemma close_then_start_witness :
  let s2 := ListenerGuitarra.executa_todas sem_porta
              [ListenerGuitarra.ChamaClose; ListenerGuitarra.ChamaStart] in
  ListenerGuitarra._running (ListenerGuitarra.ouvinte sem_porta) = true /\
  vivas (ListenerGuitarra.amb sem_porta) = ∅ /\
  ListenerGuitarra._running (ListenerGuitarra.ouvinte s2) = true /\
  ListenerGuitarra._thread (ListenerGuitarra.ouvinte s2) = Some 1 /\
  vivas (ListenerGuitarra.amb s2) = {[1]}.
Proof.
  intros s2.
  destruct (close_then_start_replaces_a_dead_thread (W := Registro) uma_porta []
              [ListenerGuitarra.ChamaStart; ListenerGuitarra.Turno 0])
    as (th & Hth & _ & Hfim).
  - vm_compute; reflexivity.
  - vm_compute in Hth. injection Hth as <-.
    destruct Hfim as (_ & H1 & H2 & H3 & _).
    + apply (bool_decide_unpack _). vm_compute. exact I.
    + split; [vm_compute; reflexivity|]. split; [vm_compute; reflexivity|].
      split; [exact H1|]. split; [exact H2|]. exact H3.
Defined.

(** Witness of X11: the interface made with 0.25, two [start]s. *)
Lemma interface_range_witness :
  let i1 := fst (InterfaceGuitarra.atribui_notas interface_um_quarto cinco_notas) in
  let s := InterfaceGuitarra.start_vezes 2
             (InterfaceGuitarra.nova i1 (ambiente_inicial uma_porta) tt) in
  Num (PyFloat um_quarto) = Num (PyFloat (InterfaceGuitarra._range i1)) /\
  int_lt_float 0 (InterfaceGuitarra._range i1) = true /\
  fle (InterfaceGuitarra._range i1) meio = true /\
  InterfaceGuitarra.self (ListenerGuitarra.mundo s) = i1 /\
  ListenerGuitarra._range (ListenerGuitarra.ouvinte s) = PyFloat meio.
Proof.
  apply (interface_range_never_reaches_the_listener (U := unit)
           0 aceita (Num (PyFloat um_quarto)) interface_um_quarto cinco_notas 2
           (ambiente_inicial uma_porta) tt).
  vm_compute; reflexivity.
Defined.

(** Witness of X12: [atribui_notas] with no binding on the interface of
    the five bindings. *)
Lemma atribui_notas_again_witness :
  let i := configurada cinco_notas in
  let i' := fst (InterfaceGuitarra.atribui_notas i []) in
  exists vs,
    Forall2 (fun c v => int c = Retorna v)
      (dict_keys (InterfaceGuitarra._dicionario i')) vs /\
    InterfaceGuitarra._valores_dicionario i'
    = InterfaceGuitarra._valores_dicionario i ++ vs /\
    length (InterfaceGuitarra._dicionario i) <= length vs /\
    length (InterfaceGuitarra._valores_dicionario i')
    = length (InterfaceGuitarra._valores_dicionario i)
      + length (InterfaceGuitarra._dicionario i').
Proof.
  apply (atribui_notas_converts_every_key_again (U := unit)
           (configurada cinco_notas) []
           (fst (InterfaceGuitarra.atribui_notas (configurada cinco_notas) []))).
  vm_compute; reflexivity.
Defined.

(** Witness of X13: the bindings with a NaN on a new interface. *)
Lemma atribui_notas_failure_witness :
  let r := InterfaceGuitarra.atribui_notas interface_nova notas_com_nan in
  snd r = Some (RuntimeError "Valor inválido: nan") /\
  InterfaceGuitarra._dicionario (fst r)
  = InterfaceGuitarra.base_atribui_notas (InterfaceGuitarra._dicionario interface_nova)
      notas_com_nan /\
  exists ks1 k ks2 vs1,
    dict_keys (InterfaceGuitarra._dicionario (fst r)) = ks1 ++ k :: ks2 /\
    Forall2 (fun c v => int c = Retorna v) ks1 vs1 /\
    InterfaceGuitarra._valores_dicionario (fst r)
    = InterfaceGuitarra._valores_dicionario interface_nova ++ vs1 /\
    ((k = PyFloat S754_nan /\ RuntimeError "Valor inválido: nan" = RuntimeError "Valor inválido: nan") \/
     (exists sg, k = PyFloat (S754_infinity sg)
                 /\ RuntimeError "Valor inválido: nan" = OverflowError)).
Proof.
  intros r. split; [vm_compute; reflexivity|].
  apply (atribui_notas_failure_keeps_the_bindings (U := unit)
           interface_nova notas_com_nan (fst r) (RuntimeError "Valor inválido: nan")).
  vm_compute; reflexivity.
Defined.

(** Witness of X15: the five bindings given twice, and the raw note
    [(3.0, on)]. *)
Lemma second_atribui_notas_witness :
  exists i1 i2,
    InterfaceGuitarra.atribui_notas interface_nova cinco_notas = (i1, None) /\
    InterfaceGuitarra.atribui_notas i1 cinco_notas = (i2, None) /\
    InterfaceGuitarra._dicionario i2 = InterfaceGuitarra._dicionario i1 /\
    InterfaceGuitarra._valores_dicionario i1 = [1; 2; 3; 4; 5]%Z /\
    InterfaceGuitarra._valores_dicionario i2
    = ([1; 2; 3; 4; 5] ++ [1; 2; 3; 4; 5])%Z /\
    InterfaceGuitarra._callback (nota 3 true)
      {| InterfaceGuitarra.self := i2; InterfaceGuitarra.usuario := tt;
         InterfaceGuitarra.entregues := [] |}
    = ({| InterfaceGuitarra.self := i2;
          InterfaceGuitarra.usuario :=
            InterfaceGuitarra.usuario_apos i2
              (InterfaceGuitarra.resolvidas i2 (nota 3 true) cinco_notas
               ++ InterfaceGuitarra.resolvidas i2 (nota 3 true) cinco_notas) tt;
          InterfaceGuitarra.entregues :=
            [] ++ InterfaceGuitarra.resolvidas i2 (nota 3 true) cinco_notas
               ++ InterfaceGuitarra.resolvidas i2 (nota 3 true) cinco_notas |}, None).
Proof.
  apply (second_atribui_notas_doubles_the_notes (U := unit)
           0 aceita (Num (PyFloat meio)) interface_nova cinco_notas
           [1; 2; 3; 4; 5]%Z (nota 3 true) tt []).
  - vm_compute; reflexivity.
  - unfold cinco_notas.
    repeat (apply List.Forall2_cons;
            [split; [vm_compute; reflexivity|];
             split; [vm_compute; reflexivity|];
             split; [vm_compute; reflexivity|];
             eexists; vm_compute; reflexivity|]).
    apply List.Forall2_nil.
  - apply (bool_decide_unpack _). vm_compute. exact I.
  - intros np u'. reflexivity.
Defined.

(** Witness of X16: the line ["1;2;1"], of three fields. *)
Lemma line_without_one_separator_witness :
  let l := depois_de (registrados [anota 0]) (linha "1;0") [] in
  ListenerGuitarra._loop_corpo l (linha "1;2;1") []
  = {| ListenerGuitarra.it_listener := l; ListenerGuitarra.it_mundo := [];
       ListenerGuitarra.it_chamadas := []; ListenerGuitarra.it_erro := None |}.
Proof.
  apply (line_without_one_separator_is_dropped
           (depois_de (registrados [anota 0]) (linha "1;0") []) (linha "1;2;1") []).
  intros linha' H. vm_compute in H. injection H as <-. vm_compute. discriminate.
Defined.

(** Witness of X17: the line [" 12 ; 1\r\n"]. *)
Lemma device_line_witness :
  ListenerGuitarra.decodifica
    (linha_do_dispositivo [x20] [x31; x32] [x20] [x20] true [x0d; x0a])
  = ListenerGuitarra.Amostra {| codigo := float_of_Z (valor_decimal [x31; x32]); on := true |}.
Proof.
  apply (device_line_is_read_as_its_note [x20] [x31; x32] [x20] [x20] true [x0d; x0a]).
  - discriminate.
  - repeat (apply List.Forall_cons; [reflexivity|]). apply List.Forall_nil.
  - repeat (apply List.Forall_cons; [reflexivity|]). apply List.Forall_nil.
Defined.

(** Witness of X19: the game set up on the port 0 with the range 0.25, and
    the raw note [(3.0, on)]. *)
Lemma guitar_setup_witness :
  exists s,
    Jogo._iniciar_guitarra 0 (Num (PyFloat um_quarto)) aceita
      (ambiente_inicial porta_por_abrir) tt = Retorna s /\
    InterfaceGuitarra._callback (nota 3 true)
      {| InterfaceGuitarra.self := InterfaceGuitarra.self (ListenerGuitarra.mundo s);
         InterfaceGuitarra.usuario := tt; InterfaceGuitarra.entregues := [] |}
    = ({| InterfaceGuitarra.self := InterfaceGuitarra.self (ListenerGuitarra.mundo s);
          InterfaceGuitarra.usuario := tt;
          InterfaceGuitarra.entregues :=
            [{| NotaProcessada.nome := "nota3"; NotaProcessada.on := true |}] |}, None).
Proof.
  destruct (Jogo._iniciar_guitarra 0 (Num (PyFloat um_quarto)) aceita
              (ambiente_inicial porta_por_abrir) tt) as [s|e] eqn:E.
  - exists s. split; [reflexivity|].
    apply (guitar_setup_resolves_each_bound_code (U := unit)
             0 um_quarto aceita (ambiente_inicial porta_por_abrir) tt s
             "nota3"%string (float_of_Z 3) true tt [] E).
    unfold cinco_notas. do 2 (apply elem_of_cons; right). apply elem_of_cons. left.
    reflexivity.
  - vm_compute in E. discriminate E.
Defined.

End Testemunhas.
